(** * BasePythonDaemon: capability gate, request dispatch and lifecycle

    A shallow embedding of [src/platform/common/process/baseDaemon.node.ts]
    and the properties its design document states about it.

    Conventions of the embedding:
    - JavaScript strings are [string]s of 8-bit characters; [toLowerCase]
      acts on the ASCII letters.
    - An object used as a dictionary ([SpawnOptions]) is the list of its own
      enumerable properties in insertion order, which is what [Object.keys]
      exposes.
    - A [throw] (and, inside an [async] function, the rejection it turns
      into) is the [Throw] case of [Completion].
    - The daemon object is a record; every method takes the record and
      returns the updated one.  An [await] splits a method in the part before
      the suspension and the part that runs once the awaited promise has
      settled. *)

From Stdlib Require Import ZArith Ascii String List Bool Lia DecimalString.
From stdpp Require Import base option list strings.

Local Open Scope string_scope.
Local Open Scope list_scope.

(** ** JavaScript values and strings *)

Inductive JsValue : Type :=
  | JsUndefined
  | JsNull
  | JsBool (b : bool)
  | JsString (s : string)
  | JsNumber (z : Z)
  | JsObject (tag : string).

(** ToBoolean. *)
Definition truthy (v : JsValue) : bool :=
  match v with
  | JsUndefined | JsNull => false
  | JsBool b => b
  | JsString s => negb (String.eqb s "")
  | JsNumber z => negb (Z.eqb z 0)
  | JsObject _ => true
  end.

(** ToBoolean of an optional string field ([error?: string], [stderr?: string]):
    absent and the empty string are both falsy. *)
Definition truthyField (f : option string) : bool :=
  match f with
  | Some s => negb (String.eqb s "")
  | None => false
  end.

Definition lowerAscii (c : ascii) : ascii :=
  let n := nat_of_ascii c in
  if (65 <=? n)%nat && (n <=? 90)%nat then ascii_of_nat (n + 32) else c.

Fixpoint toLowerCase (s : string) : string :=
  match s with
  | EmptyString => EmptyString
  | String c rest => String (lowerAscii c) (toLowerCase rest)
  end.

(** [String.prototype.endsWith]: the last [length suffix] characters of [s]
    are [suffix]; false when [s] is shorter than [suffix]. *)
Definition endsWith (s suffix : string) : bool :=
  let n := String.length s in
  let m := String.length suffix in
  if (m <=? n)%nat then String.eqb (substring (n - m) m s) suffix else false.

(** [Array.prototype.indexOf]: position of the first occurrence, or -1. *)
Fixpoint indexOf (l : list string) (x : string) : Z :=
  match l with
  | [] => (-1)%Z
  | y :: rest =>
      if String.eqb y x then 0%Z
      else let i := indexOf rest x in
           if (i <? 0)%Z then (-1)%Z else (i + 1)%Z
  end.

(** [Array.prototype.join]. *)
Fixpoint join (sep : string) (l : list string) : string :=
  match l with
  | [] => ""
  | [x] => x
  | x :: rest => x +:+ sep +:+ join sep rest
  end.

(** [util.format] of a number. *)
Definition formatNumber (z : Z) : string :=
  NilZero.string_of_int (Z.to_int z).

(** ** Errors and completions *)

Inductive JsError : Type :=
  | ConnectionClosedError (message : string)
  | DaemonError (message : string)
  | StdErrError (message : string)
  | TypeError (message : string)
  | ExternalError (message : string).   (* anything raised by a collaborator *)

(** [ex instanceof DaemonError || ex instanceof ConnectionClosedError] *)
Definition isDaemonFailure (ex : JsError) : bool :=
  match ex with
  | DaemonError _ | ConnectionClosedError _ => true
  | _ => false
  end.

Inductive Completion (A : Type) : Type :=
  | Normal (a : A)
  | Throw (e : JsError).
Arguments Normal {A} a.
Arguments Throw {A} e.

(** ** Spawn options *)

Definition SpawnOptions : Type := list (string * JsValue).

Definition Object_keys (o : SpawnOptions) : list string := map fst o.

(** Property read [o.k]; [undefined] when the object has no such property. *)
Fixpoint getProp (o : SpawnOptions) (k : string) : JsValue :=
  match o with
  | [] => JsUndefined
  | (k', v) :: rest => if String.eqb k' k then v else getProp rest k
  end.

(** ** Capability gate *)

Definition daemonSupportedSpawnOptions : list string :=
  ["cwd"; "env"; "throwOnStdErr"; "token"; "encoding"; "mergeStdOutErr"].

Definition areOptionsSupported (options : SpawnOptions) : bool :=
  forallb (fun item => (0 <=? indexOf daemonSupportedSpawnOptions item)%Z)
          (Object_keys options).

(** The allow-list, as the design document writes it. *)
Definition allowListed (k : string) : Prop :=
  k = "cwd" \/ k = "env" \/ k = "throwOnStdErr" \/ k = "token" \/
  k = "encoding" \/ k = "mergeStdOutErr".

(** [args[0].toLowerCase()] raises a TypeError when [args[0]] is
    [undefined]. *)
Definition canExecFileUsingDaemon (args : list string) (options : SpawnOptions)
  : Completion bool :=
  match args !! 0%nat with
  | None =>
      Throw (TypeError "Cannot read properties of undefined (reading 'toLowerCase')")
  | Some a0 =>
      Normal (endsWith (toLowerCase a0) ".py" && areOptionsSupported options)
  end.

Definition canExecModuleUsingDaemon (_moduleName : string) (_args : list string)
    (options : SpawnOptions) : bool :=
  areOptionsSupported options.

(** ** Responses and their post-processing *)

Record ExecResponse : Type := mkResponse {
  error : option string;
  stdout : string;
  stderr : option string
}.

(** [processResponse] mutates [response] in place; the embedding returns the
    object as it is after the call.  [eol] is [os.EOL]. *)
Definition processResponse (eol : string) (response : ExecResponse)
    (options : SpawnOptions) : Completion ExecResponse :=
  if truthyField (error response) then
    Throw (DaemonError
             ("Failed to execute using the daemon, " +:+ default "" (error response)))
  else if truthyField (stderr response) && truthy (getProp options "throwOnStdErr") then
    Throw (StdErrError (default "" (stderr response)))
  else if truthyField (stderr response) && truthy (getProp options "mergeStdOutErr") then
    Normal {| error := error response;
              stdout := stdout response +:+ eol +:+ default "" (stderr response);
              stderr := stderr response |}
  else
    Normal response.

(** ** Output events and the per-call subject *)

Inductive Source : Type := SrcStdout | SrcStderr.

Record Output : Type := mkOutput {
  source : Source;
  out : string
}.

Inductive Notification : Type :=
  | OnNext (o : Output)
  | OnError (e : JsError)
  | OnComplete.

(** An rxjs [Subject] as its observers see it: the notifications delivered so
    far, and whether the subject has stopped.  Once stopped ([error] or
    [complete]) nothing more is delivered. *)
Record Subject : Type := mkSubject {
  emitted : list Notification;
  isStopped : bool
}.

Definition newSubject : Subject := {| emitted := []; isStopped := false |}.

Definition subject_next (o : Output) (s : Subject) : Subject :=
  if isStopped s then s
  else {| emitted := emitted s ++ [OnNext o]; isStopped := false |}.

Definition subject_error (e : JsError) (s : Subject) : Subject :=
  if isStopped s then s
  else {| emitted := emitted s ++ [OnError e]; isStopped := true |}.

Definition subject_complete (s : Subject) : Subject :=
  if isStopped s then s
  else {| emitted := emitted s ++ [OnComplete]; isStopped := true |}.

(** The callback [execAsObservable] subscribes to [outputObservable]. *)
Definition onOutput (options : SpawnOptions) (o : Output) (subject : Subject)
  : Subject :=
  match source o with
  | SrcStderr =>
      if truthy (getProp options "throwOnStdErr") then
        subject_error (StdErrError (out o)) subject
      else if truthy (getProp options "mergeStdOutErr") then
        subject_next {| source := SrcStdout; out := out o |} subject
      else subject_next o subject
  | SrcStdout => subject_next o subject
  end.

(** ** Promises *)

Inductive Settlement : Type :=
  | Fulfilled (response : option ExecResponse)   (* [None]: no response object *)
  | Rejected (ex : JsError).

Inductive PromiseState : Type :=
  | Pending
  | Settled (s : Settlement).

(** What [sendRequest] hands back: the race of one connection request against
    the closed promise, or the closed promise itself. *)
Inductive PromiseRef : Type :=
  | RaceOf (id : nat)
  | ClosedPromise.

(** One call of [connection.sendRequest]: the payload, the state of the
    connection's own promise ([answer]) and of the [Promise.race] built on
    it ([race]). *)
Record Request : Type := mkRequest {
  method : string;
  target : string;             (* file_name or module_name *)
  reqArgs : list string;
  cwd : JsValue;
  env : JsValue;
  answer : PromiseState;
  race : PromiseState
}.

(** ** Daemon state *)

Inductive Signal : Type := KillDefault | KillSIGKILL.

Inductive ConnEvent : Type := OnClose | OnDispose | OnErrorEvent.

(** The disposable returned by [connection.onClose] and its siblings. *)
Record Listener : Type := mkListener {
  listensTo : ConnEvent;
  disposeCount : nat
}.

Inductive Target : Type :=
  | FileTarget (fileName : string)
  | ModuleTarget (moduleName : string).

(** The state [execAsObservable] closes over. *)
Record Stream : Type := mkStream {
  moduleOrFile : Target;
  streamArgs : list string;
  streamOptions : SpawnOptions;
  subject : Subject;
  subscribed : bool;            (* subscription to outputObservable *)
  stdErr : string;              (* raw stderr buffered from the process *)
  startPromise : PromiseRef;    (* what start() awaits *)
  startSettled : bool;          (* start()'s continuation has run *)
  timerPending : bool           (* the 100 ms timer is armed *)
}.

(** Calls made on [pythonExecutionService]. *)
Inductive FallbackCall : Type :=
  | FExec (args : list string) (options : SpawnOptions)
  | FExecModule (moduleName : string) (args : list string) (options : SpawnOptions)
  | FExecObservable (args : list string) (options : SpawnOptions)
  | FExecModuleObservable (moduleName : string) (args : list string)
      (options : SpawnOptions).

Inductive LogLevel : Type := LogError | LogWarning | LogVerbose.

(** What the daemon is given from outside. *)
Record Platform : Type := mkPlatform {
  isWindows : bool;             (* platformService.isWindows *)
  EOL : string;                 (* os.EOL *)
  killThrows : bool             (* proc.kill raises *)
}.

Record Daemon : Type := mkDaemon {
  platform : Platform;
  connectionClosedMessage : string;
  disposed : bool;
  connectionClosedDeferred : option JsError;   (* [None]: still pending *)
  disposables : list Listener;
  killCalls : list Signal;                     (* calls of proc.kill *)
  procExitCode : option Z;                     (* proc.exitCode *)
  requests : list Request;
  streams : list Stream;
  fallbackCalls : list FallbackCall;
  logged : list (LogLevel * string)
}.

Definition setMessage (m : string) (d : Daemon) : Daemon :=
  mkDaemon (platform d) m (disposed d) (connectionClosedDeferred d)
    (disposables d) (killCalls d) (procExitCode d) (requests d) (streams d)
    (fallbackCalls d) (logged d).

Definition setDisposed (b : bool) (d : Daemon) : Daemon :=
  mkDaemon (platform d) (connectionClosedMessage d) b (connectionClosedDeferred d)
    (disposables d) (killCalls d) (procExitCode d) (requests d) (streams d)
    (fallbackCalls d) (logged d).

Definition setDeferred (p : option JsError) (d : Daemon) : Daemon :=
  mkDaemon (platform d) (connectionClosedMessage d) (disposed d) p
    (disposables d) (killCalls d) (procExitCode d) (requests d) (streams d)
    (fallbackCalls d) (logged d).

Definition setDisposables (l : list Listener) (d : Daemon) : Daemon :=
  mkDaemon (platform d) (connectionClosedMessage d) (disposed d)
    (connectionClosedDeferred d) l (killCalls d) (procExitCode d) (requests d)
    (streams d) (fallbackCalls d) (logged d).

Definition setKillCalls (l : list Signal) (d : Daemon) : Daemon :=
  mkDaemon (platform d) (connectionClosedMessage d) (disposed d)
    (connectionClosedDeferred d) (disposables d) l (procExitCode d) (requests d)
    (streams d) (fallbackCalls d) (logged d).

Definition setExitCode (c : option Z) (d : Daemon) : Daemon :=
  mkDaemon (platform d) (connectionClosedMessage d) (disposed d)
    (connectionClosedDeferred d) (disposables d) (killCalls d) c (requests d)
    (streams d) (fallbackCalls d) (logged d).

Definition setRequests (l : list Request) (d : Daemon) : Daemon :=
  mkDaemon (platform d) (connectionClosedMessage d) (disposed d)
    (connectionClosedDeferred d) (disposables d) (killCalls d) (procExitCode d) l
    (streams d) (fallbackCalls d) (logged d).

Definition setStreams (l : list Stream) (d : Daemon) : Daemon :=
  mkDaemon (platform d) (connectionClosedMessage d) (disposed d)
    (connectionClosedDeferred d) (disposables d) (killCalls d) (procExitCode d)
    (requests d) l (fallbackCalls d) (logged d).

(** A call on the fallback executor. *)
Definition callFallback (c : FallbackCall) (d : Daemon) : Daemon :=
  mkDaemon (platform d) (connectionClosedMessage d) (disposed d)
    (connectionClosedDeferred d) (disposables d) (killCalls d) (procExitCode d)
    (requests d) (streams d) (fallbackCalls d ++ [c]) (logged d).

Definition trace (lvl : LogLevel) (msg : string) (d : Daemon) : Daemon :=
  mkDaemon (platform d) (connectionClosedMessage d) (disposed d)
    (connectionClosedDeferred d) (disposables d) (killCalls d) (procExitCode d)
    (requests d) (streams d) (fallbackCalls d) (logged d ++ [(lvl, msg)]).

(** The state the constructor leaves: alive, the closed promise pending, the
    three connection listeners registered by [monitorConnection]. *)
Definition initial (pf : Platform) : Daemon :=
  {| platform := pf;
     connectionClosedMessage := "";
     disposed := false;
     connectionClosedDeferred := None;
     disposables := [ mkListener OnClose 0; mkListener OnDispose 0;
                      mkListener OnErrorEvent 0 ];
     killCalls := [];
     procExitCode := None;
     requests := [];
     streams := [];
     fallbackCalls := [];
     logged := [] |}.

Definition isAlive (d : Daemon) : bool :=
  String.eqb (connectionClosedMessage d) "".

(** ** Lifecycle *)

(** [proc.kill(signal)]: the call is recorded; it may raise. *)
Definition proc_kill (sig : Signal) (d : Daemon) : Daemon * Completion unit :=
  (setKillCalls (killCalls d ++ [sig]) d,
   if killThrows (platform d) then Throw (ExternalError "kill") else Normal tt).

Definition disposeListener (l : Listener) : Listener :=
  {| listensTo := listensTo l; disposeCount := S (disposeCount l) |}.

Definition dispose (d : Daemon) : Daemon :=
  let d := setMessage "Daemon disposed from dispose()" d in
  if negb (disposed d) then
    let d := setDisposed true d in
    (* try { kill } catch { noop() } *)
    let '(d, _) :=
      if isWindows (platform d) then proc_kill KillDefault d
      else proc_kill KillSIGKILL d in
    setDisposables (map disposeListener (disposables d)) d
  else d.

(** Settle the race of a request, unless it has settled already. *)
Definition settleRace (s : Settlement) (r : Request) : Request :=
  match race r with
  | Pending =>
      mkRequest (method r) (target r) (reqArgs r) (cwd r) (env r) (answer r)
        (Settled s)
  | Settled _ => r
  end.

(** [connectionClosedDeferred.reject(ex)]: only the first rejection has an
    effect; it settles every race that is still pending. *)
Definition rejectClosed (ex : JsError) (d : Daemon) : Daemon :=
  match connectionClosedDeferred d with
  | Some _ => d
  | None =>
      setRequests (map (settleRace (Rejected ex)) (requests d))
        (setDeferred (Some ex) d)
  end.

(** [logConnectionStatus(msg, ex)]; [ex] is [Some text] when the argument is
    truthy, [text] being its [util.format]. *)
Definition logConnectionStatus (msg : string) (ex : option string) (d : Daemon)
  : Daemon :=
  if negb (disposed d) then
    let suffix := match ex with
                  | Some text => ", With Error: " +:+ text
                  | None => ""
                  end in
    let d := setMessage (connectionClosedMessage d +:+ msg +:+ suffix) d in
    let d := trace LogWarning msg d in
    let d := rejectClosed (ConnectionClosedError (connectionClosedMessage d)) d in
    match ex with
    | Some _ => trace LogError "Daemon Connection errored" d
    | None => d
    end
  else d.

(** A connection event reaches its handler as long as the listener has not
    been disposed. *)
Definition listening (c : ConnEvent) (d : Daemon) : bool :=
  existsb (fun l => match listensTo l, c with
                    | OnClose, OnClose | OnDispose, OnDispose
                    | OnErrorEvent, OnErrorEvent => Nat.eqb (disposeCount l) 0
                    | _, _ => false
                    end) (disposables d).

Definition onConnectionClose (d : Daemon) : Daemon :=
  if listening OnClose d then logConnectionStatus "Daemon Connection Closed" None d
  else d.

Definition onConnectionDispose (d : Daemon) : Daemon :=
  if listening OnDispose d then
    logConnectionStatus "Daemon Connection disposed" None d
  else d.

Definition onConnectionError (ex : string) (d : Daemon) : Daemon :=
  if listening OnErrorEvent d then
    logConnectionStatus "Daemon Connection errored" (Some ex) d
  else d.

(** The process's 'exit' event; [code] is [null] when a signal ended it.
    Node sets [proc.exitCode] before it emits the event. *)
Definition onProcExit (code : option Z) (d : Daemon) : Daemon :=
  let d := setExitCode code d in
  logConnectionStatus "Daemon Processed died with exit code"
    (match code with
     | Some z => if Z.eqb z 0 then None else Some (formatNumber z)
     | None => None
     end) d.

(** ** Request dispatch *)

Definition isNumber (c : option Z) : bool :=
  match c with Some _ => true | None => false end.

Definition closedPromiseState (d : Daemon) : PromiseState :=
  match connectionClosedDeferred d with
  | Some ex => Settled (Rejected ex)
  | None => Pending
  end.

(** State of the promise a caller of [sendRequest] is awaiting. *)
Definition promiseState (d : Daemon) (p : PromiseRef) : PromiseState :=
  match p with
  | RaceOf id =>
      match requests d !! id with
      | Some r => race r
      | None => Pending
      end
  | ClosedPromise => closedPromiseState d
  end.

(** [sendRequest(type, params)].  [this.proc] is an object, hence truthy. *)
Definition sendRequest (mth tgt : string) (args : list string) (cwd' env' : JsValue)
    (d : Daemon) : Daemon * PromiseRef :=
  let d :=
    if negb (isAlive d) || isNumber (procExitCode d) then
      trace LogError "Daemon is handling a request after death." d
    else d in
  if isAlive d && negb (isNumber (procExitCode d)) then
    (* Promise.race([connection.sendRequest(type, params), closed]) *)
    let r := {| method := mth; target := tgt; reqArgs := args;
                cwd := cwd'; env := env';
                answer := Pending;
                race := closedPromiseState d |} in
    (setRequests (requests d ++ [r]) d, RaceOf (length (requests d)))
  else (d, ClosedPromise).

(** The connection settles the promise of request [id].  A promise settles
    once; the race follows unless the closed promise got there first. *)
Definition onAnswer (id : nat) (s : Settlement) (d : Daemon) : Daemon :=
  match requests d !! id with
  | Some r =>
      match answer r with
      | Pending =>
          let r' := mkRequest (method r) (target r) (reqArgs r) (cwd r) (env r)
                      (Settled s) (race r) in
          setRequests (<[id := settleRace s r']> (requests d)) d
      | Settled _ => d
      end
  | None => d
  end.

(** [throwIfRPCConnectionIsDead]. *)
Definition throwIfRPCConnectionIsDead (d : Daemon) : Completion unit :=
  if negb (isAlive d) then Throw (ConnectionClosedError (connectionClosedMessage d))
  else Normal tt.

(** ** Batch execution *)

Inductive ExecOutcome : Type :=
  | Returned (result : ExecResponse)
  | ViaFallback (call : FallbackCall)   (* whatever the fallback call yields *)
  | Threw (ex : JsError).

Inductive ExecStart : Type :=
  | Suspended (p : PromiseRef)          (* awaiting the daemon *)
  | Finished (o : ExecOutcome).

(** [execFileWithDaemon] and [execModuleWithDaemon] up to their [await]. *)
Definition execFileWithDaemon (fileName : string) (args : list string)
    (options : SpawnOptions) (d : Daemon) : Daemon * PromiseRef :=
  sendRequest "exec_file" fileName args (getProp options "cwd")
    (getProp options "env") d.

Definition execModuleWithDaemon (moduleName : string) (args : list string)
    (options : SpawnOptions) (d : Daemon) : Daemon * PromiseRef :=
  sendRequest "exec_module" moduleName args (getProp options "cwd")
    (getProp options "env") d.

(** ... and from the [await] on: a rejection is rethrown, a response goes
    through [processResponse] (which reads [response.error], a TypeError when
    there is no response object). *)
Definition withDaemonResume (eol : string) (options : SpawnOptions)
    (s : Settlement) : Completion ExecResponse :=
  match s with
  | Rejected ex => Throw ex
  | Fulfilled None =>
      Throw (TypeError "Cannot read properties of undefined (reading 'error')")
  | Fulfilled (Some response) => processResponse eol response options
  end.

Definition fallbackWarning : string :=
  "Falling back to Python Execution Service due to failure in daemon".

(** The [catch] clause shared by the four public methods. *)
Definition catchDaemonFailure (call : FallbackCall) (ex : JsError) (d : Daemon)
  : Daemon * ExecOutcome :=
  if isDaemonFailure ex then
    (callFallback call (trace LogWarning fallbackWarning d), ViaFallback call)
  else (d, Threw ex).

(** [exec(args, options)] up to the first suspension.  [args[0]] is only read
    after the gate has read it. *)
Definition exec (args : list string) (options : SpawnOptions) (d : Daemon)
  : Daemon * ExecStart :=
  if isAlive d then
    match canExecFileUsingDaemon args options with
    | Throw ex => (d, Finished (Threw ex))
    | Normal true =>
        let '(d, p) :=
          execFileWithDaemon (default "" (args !! 0%nat)) (drop 1 args) options d in
        (d, Suspended p)
    | Normal false =>
        (callFallback (FExec args options) d,
         Finished (ViaFallback (FExec args options)))
    end
  else
    (callFallback (FExec args options) d,
     Finished (ViaFallback (FExec args options))).

(** [exec] from the point where the awaited promise has settled with [s]. *)
Definition exec_resume (args : list string) (options : SpawnOptions)
    (s : Settlement) (d : Daemon) : Daemon * ExecOutcome :=
  match withDaemonResume (EOL (platform d)) options s with
  | Normal response => (d, Returned response)
  | Throw ex => catchDaemonFailure (FExec args options) ex d
  end.

Definition execModule (moduleName : string) (args : list string)
    (options : SpawnOptions) (d : Daemon) : Daemon * ExecStart :=
  if isAlive d && canExecModuleUsingDaemon moduleName args options then
    let '(d, p) := execModuleWithDaemon moduleName args options d in
    (d, Suspended p)
  else
    (callFallback (FExecModule moduleName args options) d,
     Finished (ViaFallback (FExecModule moduleName args options))).

Definition execModule_resume (moduleName : string) (args : list string)
    (options : SpawnOptions) (s : Settlement) (d : Daemon)
  : Daemon * ExecOutcome :=
  match withDaemonResume (EOL (platform d)) options s with
  | Normal response => (d, Returned response)
  | Throw ex => catchDaemonFailure (FExecModule moduleName args options) ex d
  end.

(** ** Streaming execution *)

Definition LF : string := String (ascii_of_nat 10) "".

Definition targetName (t : Target) : string :=
  match t with
  | FileTarget fileName => fileName
  | ModuleTarget moduleName => moduleName
  end.

(** [execAsObservable]: subscribe to the relay, then run [start()] up to its
    [await].  Nothing in it raises synchronously.  The result is the index of
    the new stream. *)
Definition execAsObservable (t : Target) (args : list string)
    (options : SpawnOptions) (d : Daemon) : Daemon * nat :=
  let '(d, p) :=
    match t with
    | FileTarget fileName =>
        sendRequest "exec_file_observable" fileName args (getProp options "cwd")
          (getProp options "env") d
    | ModuleTarget moduleName =>
        sendRequest "exec_module_observable" moduleName args
          (getProp options "cwd") (getProp options "env") d
    end in
  let st := {| moduleOrFile := t; streamArgs := args; streamOptions := options;
               subject := newSubject; subscribed := true; stdErr := "";
               startPromise := p; startSettled := false;
               timerPending := false |} in
  (setStreams (streams d ++ [st]) d, length (streams d)).

Inductive ObservableOutcome : Type :=
  | ObservableOf (streamId : nat)
  | ObservableViaFallback (call : FallbackCall)
  | ObservableThrew (ex : JsError).

Definition execObservable (args : list string) (options : SpawnOptions)
    (d : Daemon) : Daemon * ObservableOutcome :=
  if isAlive d then
    match canExecFileUsingDaemon args options with
    | Throw ex => (d, ObservableThrew ex)
    | Normal true =>
        let '(d, sid) :=
          execAsObservable (FileTarget (default "" (args !! 0%nat))) (drop 1 args)
            options d in
        (d, ObservableOf sid)
    | Normal false =>
        (callFallback (FExecObservable args options) d,
         ObservableViaFallback (FExecObservable args options))
    end
  else
    (callFallback (FExecObservable args options) d,
     ObservableViaFallback (FExecObservable args options)).

Definition execModuleObservable (moduleName : string) (args : list string)
    (options : SpawnOptions) (d : Daemon) : Daemon * ObservableOutcome :=
  if isAlive d && canExecModuleUsingDaemon moduleName args options then
    let '(d, sid) := execAsObservable (ModuleTarget moduleName) args options d in
    (d, ObservableOf sid)
  else
    (callFallback (FExecModuleObservable moduleName args options) d,
     ObservableViaFallback (FExecModuleObservable moduleName args options)).

Definition setSubject (s : Subject) (st : Stream) : Stream :=
  mkStream (moduleOrFile st) (streamArgs st) (streamOptions st) s (subscribed st)
    (stdErr st) (startPromise st) (startSettled st) (timerPending st).

(** [outputObservable.next(output)]: every live subscription gets the event. *)
Definition relayOutput (o : Output) (st : Stream) : Stream :=
  if subscribed st then setSubject (onOutput (streamOptions st) o (subject st)) st
  else st.

(** [proc.stderr.on('data', ...)]. *)
Definition bufferStderr (data : string) (st : Stream) : Stream :=
  mkStream (moduleOrFile st) (streamArgs st) (streamOptions st) (subject st)
    (subscribed st) (stdErr st +:+ data) (startPromise st) (startSettled st)
    (timerPending st).

(** What [start()] raises once its request has settled with [s]. *)
Definition startFailure (s : Settlement) : option JsError :=
  match s with
  | Rejected ex => Some ex
  | Fulfilled (Some response) =>
      if truthyField (error response) then
        Some (DaemonError (default "" (error response)))
      else None
  | Fulfilled None => None
  end.

Definition startErrorMsg (st : Stream) : string :=
  "Failed to run " +:+ targetName (moduleOrFile st) +:+
  " as observable with args " +:+ join " " (streamArgs st).

(** [start().catch(...).finally(...)]: on failure one stderr event and the
    terminal error; in both cases the timer is armed. *)
Definition startSettles (s : Settlement) (st : Stream) : Stream :=
  let subj :=
    match startFailure s with
    | Some ex =>
        subject_error ex
          (subject_next {| source := SrcStderr;
                           out := startErrorMsg st +:+ LF +:+ stdErr st |}
             (subject st))
    | None => subject st
    end in
  mkStream (moduleOrFile st) (streamArgs st) (streamOptions st) subj
    (subscribed st) (stdErr st) (startPromise st) true true.

(** The timer callback: [subscription.unsubscribe(); subject.complete()]. *)
Definition timerFires (st : Stream) : Stream :=
  mkStream (moduleOrFile st) (streamArgs st) (streamOptions st)
    (subject_complete (subject st)) false (stdErr st) (startPromise st)
    (startSettled st) false.

(** The continuation of stream [sid]'s [start()] runs once, when the promise
    it awaits has settled. *)
Definition onStartSettled (sid : nat) (d : Daemon) : Daemon :=
  match streams d !! sid with
  | Some st =>
      if startSettled st then d
      else match promiseState d (startPromise st) with
           | Pending => d
           | Settled s =>
               let d := match startFailure s with
                        | Some _ => trace LogError (startErrorMsg st) d
                        | None => d
                        end in
               setStreams (<[sid := startSettles s st]> (streams d)) d
           end
  | None => d
  end.

Definition onTimer (sid : nat) (d : Daemon) : Daemon :=
  match streams d !! sid with
  | Some st =>
      if timerPending st then setStreams (<[sid := timerFires st]> (streams d)) d
      else d
  | None => d
  end.

(** ** Everything that can happen to a daemon *)

Inductive BatchCall : Type :=
  | CallExec (args : list string) (options : SpawnOptions)
  | CallExecModule (moduleName : string) (args : list string)
      (options : SpawnOptions).

Inductive Event : Type :=
  | EDispose
  | EConnClose
  | EConnDispose
  | EConnError (ex : string)
  | EProcExit (code : option Z)
  | EExitCode (code : Z)          (* proc.exitCode set, 'exit' not yet handled *)
  | ESendRequest (mth tgt : string) (args : list string) (cwd' env' : JsValue)
  | EAnswer (id : nat) (s : Settlement)
  | EExec (args : list string) (options : SpawnOptions)
  | EExecModule (moduleName : string) (args : list string) (options : SpawnOptions)
  | EResume (c : BatchCall) (p : PromiseRef)
  | EExecObservable (args : list string) (options : SpawnOptions)
  | EExecModuleObservable (moduleName : string) (args : list string)
      (options : SpawnOptions)
  | EOutput (o : Output)
  | ERawStderr (data : string)
  | EStartSettled (sid : nat)
  | ETimer (sid : nat).

(** The two batch methods, uniformly. *)
Definition start (c : BatchCall) (d : Daemon) : Daemon * ExecStart :=
  match c with
  | CallExec args options => exec args options d
  | CallExecModule m args options => execModule m args options d
  end.

Definition finish (c : BatchCall) (s : Settlement) (d : Daemon)
  : Daemon * ExecOutcome :=
  match c with
  | CallExec args options => exec_resume args options s d
  | CallExecModule m args options => execModule_resume m args options s d
  end.

Definition optionsOf (c : BatchCall) : SpawnOptions :=
  match c with
  | CallExec _ options | CallExecModule _ _ options => options
  end.

(** The fallback executor's equivalent call, same arguments and options. *)
Definition fallbackOf (c : BatchCall) : FallbackCall :=
  match c with
  | CallExec args options => FExec args options
  | CallExecModule m args options => FExecModule m args options
  end.

(** A suspended batch call resumes once its promise has settled. *)
Definition resume (c : BatchCall) (p : PromiseRef) (d : Daemon) : Daemon :=
  match promiseState d p with
  | Pending => d
  | Settled s => fst (finish c s d)
  end.

Definition step (d : Daemon) (e : Event) : Daemon :=
  match e with
  | EDispose => dispose d
  | EConnClose => onConnectionClose d
  | EConnDispose => onConnectionDispose d
  | EConnError ex => onConnectionError ex d
  | EProcExit code => onProcExit code d
  | EExitCode code => setExitCode (Some code) d
  | ESendRequest mth tgt args cwd' env' => fst (sendRequest mth tgt args cwd' env' d)
  | EAnswer id s => onAnswer id s d
  | EExec args options => fst (exec args options d)
  | EExecModule m args options => fst (execModule m args options d)
  | EResume c p => resume c p d
  | EExecObservable args options => fst (execObservable args options d)
  | EExecModuleObservable m args options =>
      fst (execModuleObservable m args options d)
  | EOutput o => setStreams (map (relayOutput o) (streams d)) d
  | ERawStderr data => setStreams (map (bufferStderr data) (streams d)) d
  | EStartSettled sid => onStartSettled sid d
  | ETimer sid => onTimer sid d
  end.

Definition run (evs : list Event) (d : Daemon) : Daemon := fold_left step evs d.

(** The five ways a daemon closes. *)
Definition isCloseTrigger (e : Event) : bool :=
  match e with
  | EDispose | EConnClose | EConnDispose | EConnError _ | EProcExit _ => true
  | _ => false
  end.

(** ** Invariants of the lifecycle *)

(** The signal [dispose] sends on this platform. *)
Definition killSignal (pf : Platform) : Signal :=
  if isWindows pf then KillDefault else KillSIGKILL.

(** Before disposal nothing has been killed or unsubscribed; after it, one
    kill has been sent, each listener has been disposed once, and the closed
    message is the one [dispose] writes. *)
Definition lifecycleOk (d : Daemon) : Prop :=
  if disposed d then
    connectionClosedMessage d = "Daemon disposed from dispose()" /\
    killCalls d = [killSignal (platform d)] /\
    disposables d = [ mkListener OnClose 1; mkListener OnDispose 1;
                      mkListener OnErrorEvent 1 ]
  else
    killCalls d = [] /\
    disposables d = [ mkListener OnClose 0; mkListener OnDispose 0;
                      mkListener OnErrorEvent 0 ].

(** Request [r] once the connection has answered it with [s]. *)
Definition settledBy (s : Settlement) (r : Request) : Request :=
  settleRace s (mkRequest (method r) (target r) (reqArgs r) (cwd r) (env r)
                  (Settled s) (race r)).

(** A pending race means the closed promise is pending too. *)
Definition raceOk (id : nat) (d : Daemon) : Prop :=
  forall r, requests d !! id = Some r -> race r = Pending ->
            connectionClosedDeferred d = None.

(** [f] leaves the subject of a stopped stream alone. *)
Definition keepsStopped (f : Stream -> Stream) : Prop :=
  forall st, isStopped (subject st) = true -> subject (f st) = subject st.

(** ** Sample inputs *)

Definition CRLF : string := String (ascii_of_nat 13) LF.

Definition posix : Platform := mkPlatform false LF false.

Definition windows : Platform := mkPlatform true CRLF false.

Definition scriptArgs : list string := ["script.py"; "--flag"].

Definition strictOptions : SpawnOptions := [("throwOnStdErr", JsBool true)].

Definition mergeOptions : SpawnOptions := [("mergeStdOutErr", JsBool true)].

(** A response with output on both channels. *)
Definition bothChannels : ExecResponse :=
  {| error := None; stdout := "out"; stderr := Some "err" |}.

(** A response that reports a daemon error next to some stderr. *)
Definition failedWithStderr : ExecResponse :=
  {| error := Some "boom"; stdout := ""; stderr := Some "oops" |}.

(** The rejection of the closed promise when the process exits with code 1. *)
Definition exitedWithOne : JsError :=
  ConnectionClosedError "Daemon Processed died with exit code, With Error: 1".

(** A live daemon with one [exec] request in flight. *)
Definition oneInFlight : Daemon := fst (exec scriptArgs [] (initial posix)).

(** A strict [exec] call whose request the daemon has answered. *)
Definition answeredStrict : Daemon :=
  run [EExec scriptArgs strictOptions; EAnswer 0 (Fulfilled (Some bothChannels))]
    (initial posix).

(** A live daemon with one strict streaming call open. *)
Definition oneStreaming : Daemon :=
  fst (execObservable scriptArgs strictOptions (initial posix)).

(** ** Requests without parameters *)

(** [sendRequestWithoutArgs(type)]: the same race as [sendRequest], with no
    parameters (recorded as an empty payload) and without the
    request-after-death diagnostic. *)
Definition sendRequestWithoutArgs (mth : string) (d : Daemon) : Daemon * PromiseRef :=
  if isAlive d && negb (isNumber (procExitCode d)) then
    let r := {| method := mth; target := ""; reqArgs := [];
                cwd := JsUndefined; env := JsUndefined;
                answer := Pending;
                race := closedPromiseState d |} in
    (setRequests (requests d ++ [r]) d, RaceOf (length (requests d)))
  else (d, ClosedPromise).

(** ** Further invariants *)

(** An alive daemon has a pending closed promise and has not been disposed. *)
Definition aliveOk (d : Daemon) : Prop :=
  isAlive d = true -> connectionClosedDeferred d = None /\ disposed d = false.

(** The closed promise is rejected with a ConnectionClosedError whose message
    the closed message starts with. *)
Definition closedOk (d : Daemon) : Prop :=
  forall ex, connectionClosedDeferred d = Some ex ->
    exists m, ex = ConnectionClosedError m /\ m <> "" /\
              (disposed d = false ->
               exists more, connectionClosedMessage d = m +:+ more).

(** A daemon that is dead without having been disposed has a rejected closed
    promise. *)
Definition deadOk (d : Daemon) : Prop :=
  disposed d = false -> isAlive d = false ->
  exists ex, connectionClosedDeferred d = Some ex.

(** [r'] carries what was sent as [r]. *)
Definition samePayload (r r' : Request) : Prop :=
  method r' = method r /\ target r' = target r /\ reqArgs r' = reqArgs r /\
  cwd r' = cwd r /\ env r' = env r.

(** Where the state of a race comes from, [closed] being the closed promise. *)
Definition originOf (closed : option JsError) (r : Request) : Prop :=
  match race r with
  | Pending => answer r = Pending /\ closed = None
  | Settled s =>
      answer r = Settled s \/ exists ex, closed = Some ex /\ s = Rejected ex
  end.

Definition originOk (d : Daemon) : Prop :=
  Forall (originOf (connectionClosedDeferred d)) (requests d).

(** The fallback call an event can make, if any. *)
Definition fallbackFor (e : Event) : option FallbackCall :=
  match e with
  | EExec args options => Some (FExec args options)
  | EExecModule m args options => Some (FExecModule m args options)
  | EResume c _ => Some (fallbackOf c)
  | EExecObservable args options => Some (FExecObservable args options)
  | EExecModuleObservable m args options =>
      Some (FExecModuleObservable m args options)
  | _ => None
  end.

(** The stream [execAsObservable] opens. *)
Definition freshStream (t : Target) (args : list string) (options : SpawnOptions)
    (p : PromiseRef) : Stream :=
  mkStream t args options newSubject true "" p false false.

(** A stream that has ended and left the relay. *)
Definition ended (st : Stream) : Prop :=
  isStopped (subject st) = true /\ subscribed st = false.

(** A stream whose start has settled: its timer is armed or it has ended. *)
Definition winding (st : Stream) : Prop :=
  startSettled st = true /\ (timerPending st = true \/ ended st).

Definition endedAs (s : Subject) (st : Stream) : Prop :=
  subject st = s /\ subscribed st = false.

(** ** Further sample inputs *)

Definition oneMerging : Daemon :=
  fst (execObservable scriptArgs mergeOptions (initial posix)).

Definition inFlightRequest : Request :=
  mkRequest "exec_file" "script.py" ["--flag"] JsUndefined JsUndefined
    Pending Pending.

Definition strictStream : Stream :=
  freshStream (FileTarget "script.py") ["--flag"] strictOptions (RaceOf 0).

Definition mergingStream : Stream :=
  freshStream (FileTarget "script.py") ["--flag"] mergeOptions (RaceOf 0).

Definition closedByPeer : JsError :=
  ConnectionClosedError "Daemon Connection Closed".


(** * Properties *)

(** ** Strings and arrays *)

Lemma indexOf_lower_bound (l : list string) (x : string) : (-1 <= indexOf l x)%Z.
Proof.
  induction l as [|y rest IH]; simpl; [lia|].
  destruct (String.eqb y x); [lia|].
  destruct (indexOf rest x <? 0)%Z eqn:E; lia.
Qed.

Lemma indexOf_found (l : list string) (x : string) :
  (0 <=? indexOf l x)%Z = true <-> In x l.
Proof.
  induction l as [|y rest IH]; simpl.
  - split; [discriminate | tauto].
  - destruct (String.eqb y x) eqn:E.
    + apply String.eqb_eq in E. split; auto.
    + apply String.eqb_neq in E.
      destruct (indexOf rest x <? 0)%Z eqn:L.
      * apply Z.ltb_lt in L. split; [discriminate|].
        intros [H|H]; [congruence|].
        apply IH in H. apply Z.leb_le in H. lia.
      * apply Z.ltb_ge in L. split.
        -- intros _. right. apply IH. now apply Z.leb_le.
        -- intros _. apply Z.leb_le. lia.
Qed.

Lemma substring_whole (s : string) : substring 0 (String.length s) s = s.
Proof. induction s as [|c s IH]; simpl; [reflexivity | now rewrite IH]. Qed.

Lemma substring_suffix (a b : string) :
  substring (String.length a) (String.length b) (a +:+ b) = b.
Proof.
  induction a as [|c a IH]; simpl; [apply substring_whole | exact IH].
Qed.

Lemma length_append (a b : string) :
  String.length (a +:+ b) = String.length a + String.length b.
Proof. induction a as [|c a IH]; simpl; [reflexivity | now rewrite IH]. Qed.

Lemma substring_split (s : string) (k : nat) :
  k <= String.length s ->
  s = substring 0 k s +:+ substring k (String.length s - k) s.
Proof.
  revert k. induction s as [|c s IH]; intros k Hk; simpl in *.
  - destruct k; [reflexivity | lia].
  - destruct k as [|k]; simpl.
    + now rewrite substring_whole.
    + change (String c s = String c (substring 0 k s +:+
                                        substring k (String.length s - k) s)).
      rewrite <- (IH k) by lia. reflexivity.
Qed.

Lemma endsWith_suffix (s suffix : string) :
  endsWith s suffix = true <-> exists stem, s = stem +:+ suffix.
Proof.
  unfold endsWith. split.
  - destruct (Nat.leb_spec (String.length suffix) (String.length s)) as [Hle|Hlt];
      [|discriminate].
    intros H. apply String.eqb_eq in H.
    exists (substring 0 (String.length s - String.length suffix) s).
    pose proof (substring_split s (String.length s - String.length suffix)) as Hs.
    replace (String.length s - (String.length s - String.length suffix))
      with (String.length suffix) in Hs by lia.
    rewrite H in Hs. apply Hs. lia.
  - intros [stem ->]. rewrite length_append.
    destruct (Nat.leb_spec (String.length suffix)
                (String.length stem + String.length suffix)); [|lia].
    replace (String.length stem + String.length suffix - String.length suffix)
      with (String.length stem) by lia.
    rewrite substring_suffix. apply String.eqb_refl.
Qed.

(** ** The capability gate *)

Lemma allowListed_supported (k : string) :
  allowListed k <-> In k daemonSupportedSpawnOptions.
Proof.
  unfold allowListed, daemonSupportedSpawnOptions. simpl.
  intuition congruence.
Qed.

Lemma areOptionsSupported_iff (options : SpawnOptions) :
  areOptionsSupported options = true <->
  forall k, In k (Object_keys options) -> allowListed k.
Proof.
  unfold areOptionsSupported. rewrite forallb_forall.
  split; intros H k Hk.
  - apply allowListed_supported, indexOf_found, H, Hk.
  - apply indexOf_found, allowListed_supported, H, Hk.
Qed.

(** C6: [areOptionsSupported] accepts an options object exactly when every
    key it has is on the allow-list cwd, env, throwOnStdErr, token, encoding,
    mergeStdOutErr; one key outside the list makes it reject; and the answer
    is the same for every reordering of the properties, whatever their
    number. *)
Theorem areOptionsSupported_allow_list (options : SpawnOptions) :
  (areOptionsSupported options = true <->
   forall k, In k (Object_keys options) -> allowListed k) /\
  ((exists k, In k (Object_keys options) /\ ~ allowListed k) ->
   areOptionsSupported options = false) /\
  (forall options', Permutation options options' ->
   areOptionsSupported options' = areOptionsSupported options).
Proof.
  split; [apply areOptionsSupported_iff|]. split.
  - intros (k & Hk & Hbad).
    destruct (areOptionsSupported options) eqn:E; [|reflexivity].
    exfalso. apply Hbad. exact (proj1 (areOptionsSupported_iff options) E k Hk).
  - intros options' Hperm.
    assert (Hkeys : forall k, In k (Object_keys options') <-> In k (Object_keys options)).
    { intros k. unfold Object_keys. split; apply Permutation_in, Permutation_map;
        [symmetry|]; exact Hperm. }
    destruct (areOptionsSupported options) eqn:E.
    + apply areOptionsSupported_iff. intros k Hk.
      apply (proj1 (areOptionsSupported_iff options) E), Hkeys, Hk.
    + destruct (areOptionsSupported options') eqn:E'; [|reflexivity].
      rewrite <- E. symmetry. apply areOptionsSupported_iff. intros k Hk.
      apply (proj1 (areOptionsSupported_iff options') E'), Hkeys, Hk.
Qed.

(** C7: for a non-empty argument list, [canExecFileUsingDaemon] answers (it
    does not raise); the answer is false whenever the lower-cased first
    argument does not end in ".py", whatever the options; and it is true
    exactly when the suffix matches and every option key is allow-listed. *)
Theorem canExecFileUsingDaemon_suffix_and_options
    (a0 : string) (rest : list string) (options : SpawnOptions) :
  (exists b, canExecFileUsingDaemon (a0 :: rest) options = Normal b) /\
  ((~ exists stem, toLowerCase a0 = stem +:+ ".py") ->
   canExecFileUsingDaemon (a0 :: rest) options = Normal false) /\
  (canExecFileUsingDaemon (a0 :: rest) options = Normal true <->
   (exists stem, toLowerCase a0 = stem +:+ ".py") /\
   (forall k, In k (Object_keys options) -> allowListed k)).
Proof.
  unfold canExecFileUsingDaemon. simpl.
  split; [eauto|]. split.
  - intros Hno. destruct (endsWith (toLowerCase a0) ".py") eqn:E; [|reflexivity].
    exfalso. apply Hno. now apply endsWith_suffix.
  - rewrite <- endsWith_suffix, <- areOptionsSupported_iff. split.
    + intros H. injection H as H. now apply andb_true_iff in H.
    + intros [-> ->]. reflexivity.
Qed.

(** C10: on a live daemon, [exec] and [execObservable] with an empty argument
    list fail with the TypeError of reading [args[0].toLowerCase()]: the
    daemon is left as it was (no request sent, no fallback call), the error is
    not one the fallback handler catches, and nothing is returned. *)
Theorem exec_empty_args_type_error (options : SpawnOptions) (d : Daemon) :
  isAlive d = true ->
  exists msg,
    exec [] options d = (d, Finished (Threw (TypeError msg))) /\
    execObservable [] options d = (d, ObservableThrew (TypeError msg)) /\
    isDaemonFailure (TypeError msg) = false.
Proof.
  intros Halive. unfold exec, execObservable. rewrite Halive. simpl.
  eexists. repeat split.
Qed.

Lemma exec_empty_args_type_error_witness :
  isAlive (initial posix) = true /\
  exists msg,
    exec [] strictOptions (initial posix)
    = (initial posix, Finished (Threw (TypeError msg))) /\
    execObservable [] strictOptions (initial posix)
    = (initial posix, ObservableThrew (TypeError msg)) /\
    isDaemonFailure (TypeError msg) = false.
Proof.
  split; [reflexivity|].
  apply (exec_empty_args_type_error strictOptions (initial posix)).
  reflexivity.
Defined.

(** ** Response post-processing and the fallback handler *)

Lemma truthyField_Some (s : string) : s <> "" -> truthyField (Some s) = true.
Proof. intros H. simpl. apply negb_true_iff, String.eqb_neq, H. Qed.

(** Counterexample to C1 as stated: a response with stdout "out" and stderr
    "err", handled under [mergeStdOutErr], comes back with the two merged in
    [stdout] and with its [stderr] field still there. *)
Lemma merged_result_keeps_stderr :
  exists result,
    exec_resume scriptArgs mergeOptions (Fulfilled (Some bothChannels))
      (initial posix)
    = (initial posix, Returned result) /\
    stdout result = "out" +:+ LF +:+ "err" /\
    stderr result = Some "err" /\
    stderr result <> None.
Proof.
  eexists. split; [reflexivity|]. simpl. repeat split; discriminate.
Qed.

(** C1 (amended): when the daemon's response to [exec] or [execModule] has no
    error, has non-empty stderr, and the options set [mergeStdOutErr] and not
    [throwOnStdErr], the caller gets the response with stdout replaced by the
    original stdout, the platform line separator and stderr; the stderr field
    is returned as the daemon sent it. *)
Theorem merge_appends_stderr_to_stdout
    (d : Daemon) (args : list string) (moduleName : string)
    (options : SpawnOptions) (response : ExecResponse) (err : string) :
  truthyField (error response) = false ->
  stderr response = Some err -> err <> "" ->
  truthy (getProp options "mergeStdOutErr") = true ->
  truthy (getProp options "throwOnStdErr") = false ->
  let merged := {| error := error response;
                   stdout := stdout response +:+ EOL (platform d) +:+ err;
                   stderr := Some err |} in
  exec_resume args options (Fulfilled (Some response)) d = (d, Returned merged) /\
  execModule_resume moduleName args options (Fulfilled (Some response)) d
  = (d, Returned merged).
Proof.
  intros Herror Hstderr Hne Hmerge Hthrow merged.
  unfold exec_resume, execModule_resume, withDaemonResume, processResponse.
  rewrite Herror, Hstderr, (truthyField_Some _ Hne), Hmerge, Hthrow. simpl.
  split; reflexivity.
Qed.

Lemma merge_appends_stderr_to_stdout_witness :
  exec_resume scriptArgs mergeOptions (Fulfilled (Some bothChannels))
    (initial windows)
  = (initial windows,
     Returned {| error := None; stdout := "out" +:+ CRLF +:+ "err";
                 stderr := Some "err" |}) /\
  execModule_resume "pip" scriptArgs mergeOptions (Fulfilled (Some bothChannels))
    (initial windows)
  = (initial windows,
     Returned {| error := None; stdout := "out" +:+ CRLF +:+ "err";
                 stderr := Some "err" |}).
Proof.
  apply (merge_appends_stderr_to_stdout (initial windows) scriptArgs "pip"
           mergeOptions bothChannels "err");
    [reflexivity | reflexivity | discriminate | reflexivity | reflexivity].
Defined.

Lemma isDaemonFailure_iff (ex : JsError) :
  isDaemonFailure ex = true <->
  exists m, ex = ConnectionClosedError m \/ ex = DaemonError m.
Proof.
  destruct ex; simpl; split; try discriminate; eauto;
    intros (m & [H|H]); discriminate.
Qed.

Lemma finish_unfold (c : BatchCall) (s : Settlement) (d : Daemon) :
  finish c s d =
  match withDaemonResume (EOL (platform d)) (optionsOf c) s with
  | Normal response => (d, Returned response)
  | Throw ex => catchDaemonFailure (fallbackOf c) ex d
  end.
Proof. destruct c; reflexivity. Qed.

(** C5: take an [exec] or [execModule] call that the gate sent to the daemon
    (it is suspended on a promise), let the promise settle after any events,
    and let the daemon attempt fail with [ex].  If [ex] is a
    ConnectionClosedError or a DaemonError, the call is answered by the
    fallback executor's equivalent call, made exactly once with the same
    arguments and options, and no daemon request is added.  If [ex] is of any
    other class (a StdErrError for one), it reaches the caller unchanged and
    the fallback executor is not called. *)
Theorem daemon_failure_retries_once_through_fallback
    (c : BatchCall) (d0 d1 : Daemon) (p : PromiseRef) (evs : list Event)
    (s : Settlement) (ex : JsError) :
  start c d0 = (d1, Suspended p) ->
  promiseState (run evs d1) p = Settled s ->
  withDaemonResume (EOL (platform (run evs d1))) (optionsOf c) s = Throw ex ->
  ((exists m, ex = ConnectionClosedError m \/ ex = DaemonError m) ->
   exists d',
     finish c s (run evs d1) = (d', ViaFallback (fallbackOf c)) /\
     fallbackCalls d' = fallbackCalls (run evs d1) ++ [fallbackOf c] /\
     requests d' = requests (run evs d1)) /\
  ((forall m, ex <> ConnectionClosedError m /\ ex <> DaemonError m) ->
   finish c s (run evs d1) = (run evs d1, Threw ex)) /\
  (forall m, ex = StdErrError m ->
             finish c s (run evs d1) = (run evs d1, Threw (StdErrError m))).
Proof.
  intros _ _ Hfail. rewrite finish_unfold, Hfail. unfold catchDaemonFailure.
  split; [|split].
  - intros Hclass. apply isDaemonFailure_iff in Hclass. rewrite Hclass.
    eexists. split; [reflexivity|]. split; reflexivity.
  - intros Hother. destruct (isDaemonFailure ex) eqn:E; [|reflexivity].
    apply isDaemonFailure_iff in E. destruct E as (m & [E|E]);
      destruct (Hother m); contradiction.
  - intros m ->. reflexivity.
Qed.

Lemma daemon_failure_retries_once_through_fallback_witness :
  (exists d',
     finish (CallExec scriptArgs []) (Rejected exitedWithOne)
       (run [EProcExit (Some 1%Z)] oneInFlight)
     = (d', ViaFallback (FExec scriptArgs [])) /\
     fallbackCalls d' = [FExec scriptArgs []] /\
     requests d' = requests (run [EProcExit (Some 1%Z)] oneInFlight)) /\
  finish (CallExec scriptArgs strictOptions) (Fulfilled (Some bothChannels))
    answeredStrict
  = (answeredStrict, Threw (StdErrError "err")).
Proof.
  split.
  - apply (daemon_failure_retries_once_through_fallback
             (CallExec scriptArgs []) (initial posix) oneInFlight (RaceOf 0)
             [EProcExit (Some 1%Z)] (Rejected exitedWithOne) exitedWithOne);
      [reflexivity | reflexivity | reflexivity | unfold exitedWithOne; eauto].
  - apply (daemon_failure_retries_once_through_fallback
             (CallExec scriptArgs strictOptions) (initial posix)
             (fst (exec scriptArgs strictOptions (initial posix))) (RaceOf 0)
             [EAnswer 0 (Fulfilled (Some bothChannels))]
             (Fulfilled (Some bothChannels)) (StdErrError "err"));
      reflexivity.
Defined.

(** ** How one event changes the daemon *)

Ltac break_match :=
  match goal with
  | |- context [match ?x with _ => _ end] =>
      lazymatch x with
      | context [match _ with _ => _ end] => fail
      | _ => destruct x eqn:?
      end
  end.

Ltac unfold_ops :=
  unfold dispose, onConnectionClose, onConnectionDispose, onConnectionError,
    onProcExit, logConnectionStatus, rejectClosed, onAnswer, exec, execModule,
    resume, finish, exec_resume, execModule_resume, catchDaemonFailure,
    execObservable, execModuleObservable, execAsObservable, execFileWithDaemon,
    execModuleWithDaemon, sendRequest, onStartSettled, onTimer, proc_kill in *.

(** Case analysis on every branch an event can take. *)
Ltac frame :=
  unfold_ops; simpl;
  repeat (break_match; simpl in *);
  try reflexivity; try congruence; try assumption.

Lemma append_nonempty (a b : string) : a <> "" -> a +:+ b <> "".
Proof. destruct a; [congruence | discriminate]. Qed.

Lemma isAlive_false (d : Daemon) :
  isAlive d = false <-> connectionClosedMessage d <> "".
Proof. unfold isAlive. apply String.eqb_neq. Qed.

Lemma run_app (evs1 evs2 : list Event) (d : Daemon) :
  run (evs1 ++ evs2) d = run evs2 (run evs1 d).
Proof. apply fold_left_app. Qed.

Lemma step_platform (d : Daemon) (e : Event) : platform (step d e) = platform d.
Proof. destruct e; simpl; frame. Qed.

Lemma run_platform (evs : list Event) (d : Daemon) :
  platform (run evs d) = platform d.
Proof.
  revert d. induction evs as [|e evs IH]; intros d; simpl; [reflexivity|].
  rewrite IH. apply step_platform.
Qed.

Lemma step_disposed (d : Daemon) (e : Event) :
  disposed d = true -> disposed (step d e) = true.
Proof. intros H. destruct e; simpl; frame. Qed.

Lemma run_disposed (evs : list Event) (d : Daemon) :
  disposed d = true -> disposed (run evs d) = true.
Proof.
  revert d. induction evs as [|e evs IH]; intros d H; simpl; [exact H|].
  apply IH, step_disposed, H.
Qed.

Lemma step_alive_false (d : Daemon) (e : Event) :
  isAlive d = false -> isAlive (step d e) = false.
Proof.
  intros H. destruct e; simpl; frame.
  all: apply isAlive_false; simpl; apply append_nonempty; now apply isAlive_false.
Qed.

Lemma run_alive_false (evs : list Event) (d : Daemon) :
  isAlive d = false -> isAlive (run evs d) = false.
Proof.
  revert d. induction evs as [|e evs IH]; intros d H; simpl; [exact H|].
  apply IH, step_alive_false, H.
Qed.

Lemma lifecycleOk_initial (pf : Platform) : lifecycleOk (initial pf).
Proof. split; reflexivity. Qed.

Lemma step_lifecycleOk (d : Daemon) (e : Event) :
  lifecycleOk d -> lifecycleOk (step d e).
Proof.
  unfold lifecycleOk, killSignal. intros H.
  destruct e; simpl; frame.
  all: try match goal with
           | Hn : negb (disposed _) = true |- _ =>
               apply negb_true_iff in Hn; rewrite Hn in H
           end.
  all: destruct H as (H1 & H2); try destruct H2 as (H2 & H3).
  all: rewrite ?H1, ?H2, ?H3; repeat split; reflexivity.
Qed.

Lemma run_lifecycleOk (evs : list Event) (d : Daemon) :
  lifecycleOk d -> lifecycleOk (run evs d).
Proof.
  revert d. induction evs as [|e evs IH]; intros d H; simpl; [exact H|].
  apply IH, step_lifecycleOk, H.
Qed.

(** The four ways an event can touch the request table and the closed
    promise: not at all; one request more; the closed promise is rejected
    and takes every pending race with it; the connection answers one
    request. *)
Lemma step_requests_shape (d : Daemon) (e : Event) :
  (requests (step d e) = requests d /\
   connectionClosedDeferred (step d e) = connectionClosedDeferred d) \/
  (exists r, requests (step d e) = requests d ++ [r] /\
             race r = closedPromiseState d /\
             connectionClosedDeferred (step d e) = connectionClosedDeferred d) \/
  (exists ex, disposed d = false /\
              connectionClosedDeferred d = None /\
              ex = ConnectionClosedError (connectionClosedMessage (step d e)) /\
              connectionClosedDeferred (step d e) = Some ex /\
              requests (step d e) = map (settleRace (Rejected ex)) (requests d)) \/
  (exists id s r, e = EAnswer id s /\ requests d !! id = Some r /\
                  answer r = Pending /\
                  requests (step d e) = <[id := settledBy s r]> (requests d) /\
                  connectionClosedDeferred (step d e) = connectionClosedDeferred d).
Proof.
  destruct e; simpl; frame.
  all: first
    [ left; split; solve [reflexivity | assumption]
    | right; left; eexists; repeat split; solve [reflexivity | assumption]
    | right; right; left; eexists; repeat split;
      solve [reflexivity | assumption | now apply negb_true_iff]
    | right; right; right; do 3 eexists; repeat split;
      solve [reflexivity | eassumption] ].
Qed.

(** ** Promises, races and the closed signal *)

Lemma settleRace_settled (s : Settlement) (r : Request) (s0 : Settlement) :
  race r = Settled s0 -> race (settleRace s r) = Settled s0.
Proof. unfold settleRace. intros H. rewrite H. exact H. Qed.

Lemma settleRace_pending (s : Settlement) (r : Request) :
  race r = Pending -> race (settleRace s r) = Settled s.
Proof. unfold settleRace. intros H. rewrite H. reflexivity. Qed.

Lemma settledBy_settled (s : Settlement) (r : Request) (s0 : Settlement) :
  race r = Settled s0 -> race (settledBy s r) = Settled s0.
Proof. intros H. unfold settledBy. now apply settleRace_settled. Qed.

Lemma closedPromiseState_Settled (d : Daemon) (s : Settlement) :
  closedPromiseState d = Settled s <->
  exists ex, connectionClosedDeferred d = Some ex /\ s = Rejected ex.
Proof.
  unfold closedPromiseState. destruct (connectionClosedDeferred d).
  - split; [intros [= <-]; eauto | intros (ex & [= ->] & ->); reflexivity].
  - split; [discriminate | intros (ex & [=] & _)].
Qed.

Lemma race_lookup (d : Daemon) (id : nat) (s : Settlement) :
  promiseState d (RaceOf id) = Settled s <->
  exists r, requests d !! id = Some r /\ race r = Settled s.
Proof.
  simpl. destruct (requests d !! id) as [r|].
  - split; [eauto | intros (r' & [= <-] & H); exact H].
  - split; [discriminate | intros (r' & [=] & _)].
Qed.

(** A promise settles once. *)
Lemma step_promise_settled (d : Daemon) (e : Event) (p : PromiseRef)
    (s : Settlement) :
  promiseState d p = Settled s -> promiseState (step d e) p = Settled s.
Proof.
  destruct p as [id|].
  - rewrite !race_lookup. intros (r & Hr & Hs).
    destruct (step_requests_shape d e)
      as [(-> & _) | [(r0 & -> & _) | [(ex & _ & _ & _ & _ & ->) | (id' & s' & r' & _ & Hr' & _ & -> & _)]]].
    + eauto.
    + exists r. split; [|exact Hs]. apply lookup_app_l_Some, Hr.
    + exists (settleRace (Rejected ex) r). rewrite list_lookup_fmap, Hr.
      split; [reflexivity | now apply settleRace_settled].
    + destruct (decide (id' = id)) as [->|Hne].
      * exists (settledBy s' r'). rewrite list_lookup_insert_eq
          by (now apply lookup_lt_Some in Hr).
        split; [reflexivity|]. apply settledBy_settled. congruence.
      * exists r. rewrite list_lookup_insert_ne by exact Hne. auto.
  - simpl. rewrite !closedPromiseState_Settled. intros (ex & Hd & ->).
    exists ex. split; [|reflexivity].
    destruct (step_requests_shape d e)
      as [(_ & ->) | [(r0 & _ & _ & ->) | [(ex' & _ & Hn & _) | (id' & s' & r' & _ & _ & _ & _ & ->)]]];
      congruence.
Qed.

Lemma run_promise_settled (evs : list Event) (d : Daemon) (p : PromiseRef)
    (s : Settlement) :
  promiseState d p = Settled s -> promiseState (run evs d) p = Settled s.
Proof.
  revert d. induction evs as [|e evs IH]; intros d H; simpl; [exact H|].
  apply IH, step_promise_settled, H.
Qed.

Lemma step_raceOk (d : Daemon) (e : Event) (id : nat) :
  raceOk id d -> raceOk id (step d e).
Proof.
  unfold raceOk. intros H r.
  destruct (step_requests_shape d e)
    as [(-> & ->) | [(r0 & -> & Hr0 & ->) | [(ex & _ & _ & _ & _ & ->) | (id' & s' & r' & _ & Hr' & _ & -> & ->)]]].
  - apply H.
  - intros Hr Hp. destruct (lookup_app_Some (requests d) [r0] id r) as [Hcase _].
    destruct (Hcase Hr) as [Hl | (_ & Hl)]; [eapply H; eassumption|].
    destruct (id - length (requests d)); simpl in Hl; [|discriminate].
    injection Hl as <-. rewrite Hr0 in Hp. unfold closedPromiseState in Hp.
    destruct (connectionClosedDeferred d); [discriminate | reflexivity].
  - rewrite list_lookup_fmap. destruct (requests d !! id) as [r1|]; [|discriminate].
    simpl. intros [= <-] Hp. unfold settleRace in Hp.
    destruct (race r1) eqn:E; simpl in Hp; congruence.
  - destruct (decide (id' = id)) as [->|Hne].
    + rewrite list_lookup_insert_eq by (now apply lookup_lt_Some in Hr').
      intros [= <-] Hp. apply (H r' Hr'). unfold settledBy, settleRace in Hp.
      simpl in Hp. destruct (race r'); [reflexivity | simpl in Hp; discriminate].
    + rewrite list_lookup_insert_ne by exact Hne. apply H.
Qed.

Lemma run_raceOk (evs : list Event) (d : Daemon) (id : nat) :
  raceOk id d -> raceOk id (run evs d).
Proof.
  revert d. induction evs as [|e evs IH]; intros d H; simpl; [exact H|].
  apply IH, step_raceOk, H.
Qed.

Lemma step_request_exists (d : Daemon) (e : Event) (id : nat) :
  is_Some (requests d !! id) -> is_Some (requests (step d e) !! id).
Proof.
  rewrite !lookup_lt_is_Some.
  destruct (step_requests_shape d e)
    as [(-> & _) | [(r0 & -> & _) | [(ex & _ & _ & _ & _ & ->) | (id' & s' & r' & _ & _ & _ & -> & _)]]];
    rewrite ?length_app, ?length_map, ?length_insert; simpl; lia.
Qed.

Lemma run_request_exists (evs : list Event) (d : Daemon) (id : nat) :
  is_Some (requests d !! id) -> is_Some (requests (run evs d) !! id).
Proof.
  revert d. induction evs as [|e evs IH]; intros d H; simpl; [exact H|].
  apply IH, step_request_exists, H.
Qed.

(** When the closed promise is rejected, a pending race goes with it. *)
Lemma step_closed_signal (d : Daemon) (e : Event) (id : nat) (ex : JsError) :
  is_Some (requests d !! id) ->
  connectionClosedDeferred d = None ->
  connectionClosedDeferred (step d e) = Some ex ->
  promiseState d (RaceOf id) = Pending ->
  promiseState (step d e) (RaceOf id) = Settled (Rejected ex) /\
  ex = ConnectionClosedError (connectionClosedMessage (step d e)).
Proof.
  intros [r Hr] Hnone Hsome. simpl. rewrite Hr. intros Hp.
  destruct (step_requests_shape d e)
    as [(_ & E) | [(r0 & _ & _ & E) | [(ex' & _ & _ & Hex & E & ->) | (id' & s' & r' & _ & _ & _ & _ & E)]]];
    try congruence.
  rewrite Hsome in E. injection E as <-.
  rewrite list_lookup_fmap, Hr. simpl. split; [|exact Hex].
  now apply settleRace_pending.
Qed.

Lemma sendRequest_alive (mth tgt : string) (args : list string)
    (cwd' env' : JsValue) (d : Daemon) :
  isAlive d = true -> procExitCode d = None ->
  sendRequest mth tgt args cwd' env' d =
  (setRequests (requests d ++ [mkRequest mth tgt args cwd' env' Pending
                                 (closedPromiseState d)]) d,
   RaceOf (length (requests d))).
Proof.
  intros Ha Hc. unfold sendRequest. rewrite Ha, Hc. simpl.
  rewrite Ha, Hc. reflexivity.
Qed.

Lemma sendRequest_dead (mth tgt : string) (args : list string)
    (cwd' env' : JsValue) (d : Daemon) :
  isAlive d = false ->
  sendRequest mth tgt args cwd' env' d =
  (trace LogError "Daemon is handling a request after death." d, ClosedPromise).
Proof.
  intros Ha. unfold sendRequest. rewrite Ha. simpl.
  unfold isAlive in *. simpl. rewrite Ha. reflexivity.
Qed.

(** C3: a request handed to [sendRequest] while the daemon is alive goes out
    on the connection and is raced against the closed promise.  If the
    closed promise is rejected while the call is still pending, the call
    settles with that rejection, a ConnectionClosedError, and keeps it
    through everything that follows; an answer of the daemon that arrives
    afterwards does not change it. *)
Theorem closed_signal_wins_race
    (d0 : Daemon) (mth tgt : string) (args : list string) (cwd' env' : JsValue)
    (evs1 : list Event) (trig : Event) (ex : JsError) :
  isAlive d0 = true -> procExitCode d0 = None ->
  let d1 := fst (sendRequest mth tgt args cwd' env' d0) in
  let p := snd (sendRequest mth tgt args cwd' env' d0) in
  let d2 := run evs1 d1 in
  promiseState d2 p = Pending ->
  connectionClosedDeferred (step d2 trig) = Some ex ->
  (exists r, p = RaceOf (length (requests d0)) /\
             requests d1 = requests d0 ++ [r] /\
             race r = closedPromiseState d0) /\
  connectionClosedDeferred d2 = None /\
  (exists msg, ex = ConnectionClosedError msg) /\
  (forall evs2, promiseState (run evs2 (step d2 trig)) p = Settled (Rejected ex)) /\
  (forall answer' evs2,
     promiseState (run (EAnswer (length (requests d0)) answer' :: evs2) (step d2 trig)) p
     = Settled (Rejected ex)).
Proof.
  intros Halive Hcode d1 p d2 Hpending Hfires.
  subst d1 p d2. rewrite (sendRequest_alive _ _ _ _ _ _ Halive Hcode) in *.
  simpl fst in *. simpl snd in *.
  set (r := mkRequest mth tgt args cwd' env' Pending (closedPromiseState d0)) in *.
  set (d1 := setRequests (requests d0 ++ [r]) d0) in *.
  set (id := length (requests d0)) in *.
  assert (Hex1 : is_Some (requests d1 !! id)).
  { exists r. subst d1 id. simpl. apply list_lookup_middle. reflexivity. }
  assert (Hok1 : raceOk id d1).
  { intros r' Hr'. subst d1 id. simpl in Hr'.
    rewrite list_lookup_middle in Hr' by reflexivity. injection Hr' as <-.
    simpl. unfold closedPromiseState.
    destruct (connectionClosedDeferred d0); [discriminate | reflexivity]. }
  pose proof (run_request_exists evs1 d1 id Hex1) as Hex2.
  pose proof (run_raceOk evs1 d1 id Hok1) as Hok2.
  assert (Hnone : connectionClosedDeferred (run evs1 d1) = None).
  { destruct Hex2 as [r2 Hr2]. apply (Hok2 r2 Hr2).
    simpl in Hpending. rewrite Hr2 in Hpending. exact Hpending. }
  destruct (step_closed_signal _ trig id ex Hex2 Hnone Hfires Hpending) as [Hset Hmsg].
  split; [exists r; repeat split; reflexivity|].
  split; [exact Hnone|].
  split; [eauto|].
  split; intros; apply run_promise_settled, Hset.
Qed.

(** ** Requests that outlive [dispose] *)

Lemma step_pending_after_dispose (d : Daemon) (e : Event) (id : nat) :
  disposed d = true ->
  (forall s, e <> EAnswer id s) ->
  is_Some (requests d !! id) ->
  promiseState d (RaceOf id) = Pending ->
  promiseState (step d e) (RaceOf id) = Pending /\
  connectionClosedDeferred (step d e) = connectionClosedDeferred d.
Proof.
  intros Hd Hne [r Hr]. simpl. rewrite Hr. intros Hp.
  destruct (step_requests_shape d e)
    as [(-> & ->) | [(r0 & -> & _ & ->) | [(ex & Hnd & _) | (id' & s' & r' & -> & Hr' & _ & -> & ->)]]].
  - rewrite Hr. auto.
  - rewrite (lookup_app_l_Some _ _ _ _ Hr). auto.
  - congruence.
  - rewrite list_lookup_insert_ne, Hr; [auto|]. intros ->. now apply (Hne s').
Qed.

Lemma run_pending_after_dispose (evs : list Event) (d : Daemon) (id : nat) :
  disposed d = true ->
  (forall s, ~ In (EAnswer id s) evs) ->
  is_Some (requests d !! id) ->
  promiseState d (RaceOf id) = Pending ->
  promiseState (run evs d) (RaceOf id) = Pending /\
  connectionClosedDeferred (run evs d) = connectionClosedDeferred d.
Proof.
  revert d. induction evs as [|e evs IH]; intros d Hd Hne Hex Hp; simpl; [auto|].
  destruct (step_pending_after_dispose d e id Hd) as [Hp' Hc']; auto.
  { intros s ->. apply (Hne s). now left. }
  rewrite <- Hc'. apply IH; auto.
  - now apply step_disposed.
  - intros s Hin. apply (Hne s). now right.
  - now apply step_request_exists.
Qed.

Lemma dispose_fields (d : Daemon) :
  disposed (dispose d) = true /\
  isAlive (dispose d) = false /\
  requests (dispose d) = requests d /\
  connectionClosedDeferred (dispose d) = connectionClosedDeferred d /\
  streams (dispose d) = streams d /\
  fallbackCalls (dispose d) = fallbackCalls d.
Proof.
  unfold dispose, proc_kill. simpl.
  destruct (disposed d) eqn:E; simpl; [auto 10|].
  destruct (isWindows (platform d)); simpl; auto 10.
Qed.

(** C2 (the code falls short of it): [dispose] does not reject the closed
    promise, and once [disposed] is set no connection or process event does.
    A request that is pending when [dispose] is called therefore stays
    pending through every later event, unless the connection itself answers
    it; the closed promise stays pending for good, and so does whatever
    [sendRequest] hands out afterwards. *)
Theorem dispose_leaves_request_pending
    (d0 : Daemon) (mth tgt : string) (args : list string) (cwd' env' : JsValue)
    (evs : list Event) :
  isAlive d0 = true -> procExitCode d0 = None ->
  connectionClosedDeferred d0 = None ->
  let d1 := fst (sendRequest mth tgt args cwd' env' d0) in
  let p := snd (sendRequest mth tgt args cwd' env' d0) in
  let d := run evs (dispose d1) in
  (forall s, ~ In (EAnswer (length (requests d0)) s) evs) ->
  p = RaceOf (length (requests d0)) /\
  promiseState d p = Pending /\
  connectionClosedDeferred d = None /\
  isAlive d = false /\
  (forall mth' tgt' args' cwd'' env'',
     snd (sendRequest mth' tgt' args' cwd'' env'' d) = ClosedPromise /\
     promiseState (fst (sendRequest mth' tgt' args' cwd'' env'' d)) ClosedPromise
     = Pending).
Proof.
  intros Halive Hcode Hnone d1 p d Hno.
  subst d1 p d. rewrite (sendRequest_alive _ _ _ _ _ _ Halive Hcode) in *.
  simpl fst in *. simpl snd in *.
  set (r := mkRequest mth tgt args cwd' env' Pending (closedPromiseState d0)) in *.
  set (d1 := setRequests (requests d0 ++ [r]) d0) in *.
  destruct (dispose_fields d1) as (Hdisp & Hdead & Hreq & Hdef & _).
  assert (Hlook : requests (dispose d1) !! length (requests d0) = Some r).
  { rewrite Hreq. subst d1. simpl. apply list_lookup_middle. reflexivity. }
  assert (Hp0 : promiseState (dispose d1) (RaceOf (length (requests d0))) = Pending).
  { simpl. rewrite Hlook. subst r. simpl. unfold closedPromiseState.
    now rewrite Hnone. }
  destruct (run_pending_after_dispose evs (dispose d1) (length (requests d0))
              Hdisp Hno (ex_intro _ r Hlook) Hp0) as [Hp Hc].
  assert (Hd : connectionClosedDeferred (run evs (dispose d1)) = None).
  { rewrite Hc, Hdef. exact Hnone. }
  assert (Ha : isAlive (run evs (dispose d1)) = false)
    by now apply run_alive_false.
  repeat split; auto.
  - now rewrite sendRequest_dead.
  - rewrite sendRequest_dead by exact Ha. simpl. unfold closedPromiseState.
    simpl. now rewrite Hd.
Qed.

(** ** Closing is permanent *)

Lemma append_nonempty_r (a b : string) : b <> "" -> a +:+ b <> "".
Proof. destruct a; simpl; [auto | discriminate]. Qed.

Lemma lifecycleOk_disposed_dead (d : Daemon) :
  lifecycleOk d -> disposed d = true -> isAlive d = false.
Proof.
  unfold lifecycleOk. intros H Hd. rewrite Hd in H. destruct H as (H & _).
  apply isAlive_false. rewrite H. discriminate.
Qed.

Lemma lifecycleOk_listening (d : Daemon) (c : ConnEvent) :
  lifecycleOk d -> disposed d = false -> listening c d = true.
Proof.
  unfold lifecycleOk, listening. intros H Hd. rewrite Hd in H.
  destruct H as (_ & ->). destruct c; reflexivity.
Qed.

Lemma logConnectionStatus_dead (msg : string) (ex : option string) (d : Daemon) :
  msg <> "" -> (disposed d = true -> isAlive d = false) ->
  isAlive (logConnectionStatus msg ex d) = false.
Proof.
  intros Hmsg Hdead. unfold logConnectionStatus.
  destruct (disposed d) eqn:Hd; simpl; [now apply Hdead|].
  assert (Hne : connectionClosedMessage d +:+ msg +:+
                match ex with Some text => ", With Error: " +:+ text | None => "" end
                <> "").
  { apply append_nonempty_r, append_nonempty, Hmsg. }
  apply isAlive_false.
  unfold rejectClosed. simpl.
  destruct (connectionClosedDeferred d), ex; simpl; exact Hne.
Qed.

Lemma trigger_closes (d : Daemon) (e : Event) :
  lifecycleOk d -> isCloseTrigger e = true -> isAlive (step d e) = false.
Proof.
  intros H Ht.
  assert (Hdead : disposed d = true -> isAlive d = false)
    by apply (lifecycleOk_disposed_dead d H).
  assert (Hdeaf : forall c, listening c d = false -> isAlive d = false).
  { intros c Hl. destruct (disposed d) eqn:Hd; [now apply Hdead|].
    rewrite (lifecycleOk_listening d c H Hd) in Hl. discriminate. }
  destruct e; try discriminate; simpl.
  - apply dispose_fields.
  - unfold onConnectionClose. destruct (listening OnClose d) eqn:Hl;
      [apply logConnectionStatus_dead; [discriminate | exact Hdead] | eauto].
  - unfold onConnectionDispose. destruct (listening OnDispose d) eqn:Hl;
      [apply logConnectionStatus_dead; [discriminate | exact Hdead] | eauto].
  - unfold onConnectionError. destruct (listening OnErrorEvent d) eqn:Hl;
      [apply logConnectionStatus_dead; [discriminate | exact Hdead] | eauto].
  - unfold onProcExit. apply logConnectionStatus_dead; [discriminate | exact Hdead].
Qed.

Lemma closed_delegates (d : Daemon) :
  isAlive d = false ->
  (forall args options,
     exec args options d
     = (callFallback (FExec args options) d,
        Finished (ViaFallback (FExec args options)))) /\
  (forall m args options,
     execModule m args options d
     = (callFallback (FExecModule m args options) d,
        Finished (ViaFallback (FExecModule m args options)))) /\
  (forall args options,
     execObservable args options d
     = (callFallback (FExecObservable args options) d,
        ObservableViaFallback (FExecObservable args options))) /\
  (forall m args options,
     execModuleObservable m args options d
     = (callFallback (FExecModuleObservable m args options) d,
        ObservableViaFallback (FExecModuleObservable m args options))).
Proof.
  intros H. unfold exec, execModule, execObservable, execModuleObservable.
  rewrite H. simpl. repeat split.
Qed.

(** C4: after a close trigger (connection closed, disposed or errored,
    process exit, [dispose]) at any point of the daemon's life, [isAlive] is
    false whatever happens next, and [exec], [execModule], [execObservable]
    and [execModuleObservable] each make the fallback executor's call and do
    nothing else: no request is sent, no stream is opened. *)
Theorem closed_daemon_stays_closed
    (pf : Platform) (evs0 : list Event) (trig : Event) (evs1 : list Event) :
  isCloseTrigger trig = true ->
  let d := run (evs0 ++ trig :: evs1) (initial pf) in
  isAlive d = false /\
  (forall args options,
     exec args options d
     = (callFallback (FExec args options) d,
        Finished (ViaFallback (FExec args options)))) /\
  (forall m args options,
     execModule m args options d
     = (callFallback (FExecModule m args options) d,
        Finished (ViaFallback (FExecModule m args options)))) /\
  (forall args options,
     execObservable args options d
     = (callFallback (FExecObservable args options) d,
        ObservableViaFallback (FExecObservable args options))) /\
  (forall m args options,
     execModuleObservable m args options d
     = (callFallback (FExecModuleObservable m args options) d,
        ObservableViaFallback (FExecModuleObservable m args options))) /\
  (forall c, requests (callFallback c d) = requests d /\
             streams (callFallback c d) = streams d).
Proof.
  intros Ht d.
  assert (Hdead : isAlive d = false).
  { subst d. rewrite run_app. simpl. apply run_alive_false, trigger_closes;
      [apply run_lifecycleOk, lifecycleOk_initial | exact Ht]. }
  split; [exact Hdead|].
  destruct (closed_delegates d Hdead) as (H1 & H2 & H3 & H4).
  repeat split; auto.
Qed.

(** ** Disposal *)

Lemma dispose_again (d : Daemon) :
  disposed d = true -> dispose d = setMessage "Daemon disposed from dispose()" d.
Proof. intros H. unfold dispose. simpl. rewrite H. reflexivity. Qed.

Lemma dispose_idempotent (d : Daemon) : dispose (dispose d) = dispose d.
Proof.
  rewrite dispose_again by apply dispose_fields.
  unfold dispose, proc_kill. simpl.
  destruct (disposed d); simpl; [reflexivity|].
  destruct (isWindows (platform d)); reflexivity.
Qed.

(** C9: however often [dispose] is called in the life of a daemon (once at
    least), and whatever else happens, the process has been sent one kill
    signal, the platform's, and each connection listener has been disposed
    once; the daemon is not alive; one more [dispose] changes nothing.  On
    any daemon already disposed, [dispose] only writes the closed message. *)
Theorem dispose_kills_and_unsubscribes_once (pf : Platform) (evs : list Event) :
  In EDispose evs ->
  let d := run evs (initial pf) in
  killCalls d = [killSignal pf] /\
  disposables d = map disposeListener (disposables (initial pf)) /\
  Forall (fun l => disposeCount l = 1) (disposables d) /\
  isAlive d = false /\
  dispose d = d /\
  (forall d', disposed d' = true ->
              dispose d' = setMessage "Daemon disposed from dispose()" d') /\
  (forall d', dispose (dispose d') = dispose d' /\ isAlive (dispose d') = false).
Proof.
  intros Hin d.
  assert (Hd : disposed d = true).
  { apply in_split in Hin. destruct Hin as (l1 & l2 & ->). subst d.
    rewrite run_app. simpl. apply run_disposed, dispose_fields. }
  pose proof (run_lifecycleOk evs _ (lifecycleOk_initial pf)) as Hok.
  fold d in Hok. unfold lifecycleOk in Hok. rewrite Hd in Hok.
  destruct Hok as (Hmsg & Hkill & Hsub).
  assert (Hpf : platform d = pf) by (subst d; now rewrite run_platform).
  rewrite Hpf in Hkill.
  split; [exact Hkill|]. split; [exact Hsub|].
  split; [rewrite Hsub; repeat constructor|].
  split; [apply isAlive_false; rewrite Hmsg; discriminate|].
  split.
  { rewrite dispose_again by exact Hd. rewrite <- Hmsg. destruct d; reflexivity. }
  split; [apply dispose_again|].
  intros d'. split; [apply dispose_idempotent | apply dispose_fields].
Qed.

(** ** Streams *)

Lemma subject_next_stopped (o : Output) (s : Subject) :
  isStopped s = true -> subject_next o s = s.
Proof. unfold subject_next. now intros ->. Qed.

Lemma subject_error_stopped (ex : JsError) (s : Subject) :
  isStopped s = true -> subject_error ex s = s.
Proof. unfold subject_error. now intros ->. Qed.

Lemma subject_complete_stopped (s : Subject) :
  isStopped s = true -> subject_complete s = s.
Proof. unfold subject_complete. now intros ->. Qed.

Lemma onOutput_stopped (options : SpawnOptions) (o : Output) (s : Subject) :
  isStopped s = true -> onOutput options o s = s.
Proof.
  intros H. unfold onOutput.
  destruct (source o), (truthy (getProp options "throwOnStdErr")),
    (truthy (getProp options "mergeStdOutErr"));
    auto using subject_next_stopped, subject_error_stopped.
Qed.

Lemma relayOutput_keeps (o : Output) : keepsStopped (relayOutput o).
Proof.
  intros st H. unfold relayOutput. destruct (subscribed st); [|reflexivity].
  simpl. now apply onOutput_stopped.
Qed.

Lemma bufferStderr_keeps (data : string) : keepsStopped (bufferStderr data).
Proof. intros st _. reflexivity. Qed.

Lemma startSettles_keeps (s : Settlement) : keepsStopped (startSettles s).
Proof.
  intros st H. unfold startSettles. simpl.
  destruct (startFailure s); [|reflexivity].
  rewrite (subject_next_stopped _ _ H). now apply subject_error_stopped.
Qed.

Lemma timerFires_keeps : keepsStopped timerFires.
Proof. intros st H. simpl. now apply subject_complete_stopped. Qed.

Lemma step_streams_shape (d : Daemon) (e : Event) :
  streams (step d e) = streams d \/
  (exists st, streams (step d e) = streams d ++ [st]) \/
  (exists f, keepsStopped f /\ streams (step d e) = map f (streams d)) \/
  (exists sid f, keepsStopped f /\
     exists st, streams d !! sid = Some st /\
                streams (step d e) = <[sid := f st]> (streams d)).
Proof.
  destruct e; simpl;
    try (right; right; left; eexists; split; [|reflexivity];
         first [apply relayOutput_keeps | apply bufferStderr_keeps]).
  all: frame.
  all: first
    [ left; reflexivity
    | right; left; eexists; reflexivity
    | right; right; right; do 2 eexists;
      split; [|eexists; split; [eassumption | reflexivity]];
      first [apply startSettles_keeps | apply timerFires_keeps] ].
Qed.

Lemma step_stream_frozen (d : Daemon) (e : Event) (sid : nat) (st : Stream) :
  streams d !! sid = Some st -> isStopped (subject st) = true ->
  exists st', streams (step d e) !! sid = Some st' /\ subject st' = subject st.
Proof.
  intros Hst Hstop.
  destruct (step_streams_shape d e)
    as [-> | [(st0 & ->) | [(f & Hf & ->) | (sid' & f & Hf & st1 & Hst1 & ->)]]].
  - eauto.
  - exists st. split; [now apply lookup_app_l_Some | reflexivity].
  - exists (f st). rewrite list_lookup_fmap, Hst. split; [reflexivity | now apply Hf].
  - destruct (decide (sid' = sid)) as [->|Hne].
    + exists (f st1). rewrite list_lookup_insert_eq by (now apply lookup_lt_Some in Hst).
      split; [reflexivity|]. assert (st1 = st) as -> by congruence. now apply Hf.
    + exists st. rewrite list_lookup_insert_ne by exact Hne. auto.
Qed.

Lemma run_stream_frozen (evs : list Event) (d : Daemon) (sid : nat) (st : Stream) :
  streams d !! sid = Some st -> isStopped (subject st) = true ->
  exists st', streams (run evs d) !! sid = Some st' /\ subject st' = subject st.
Proof.
  revert d st. induction evs as [|e evs IH]; intros d st Hst Hstop; simpl; [eauto|].
  destruct (step_stream_frozen d e sid st Hst Hstop) as (st1 & Hst1 & Hsub).
  destruct (IH (step d e) st1 Hst1) as (st2 & Hst2 & Hsub2).
  { now rewrite Hsub. }
  exists st2. split; [exact Hst2 | congruence].
Qed.

Lemma finish_stderr_error (c : BatchCall) (d : Daemon) (response : ExecResponse)
    (err : string) :
  truthyField (error response) = false ->
  stderr response = Some err -> err <> "" ->
  truthy (getProp (optionsOf c) "throwOnStdErr") = true ->
  finish c (Fulfilled (Some response)) d = (d, Threw (StdErrError err)).
Proof.
  intros Herror Hstderr Hne Hthrow.
  rewrite finish_unfold. unfold withDaemonResume, processResponse.
  rewrite Herror, Hstderr, (truthyField_Some _ Hne), Hthrow. reflexivity.
Qed.

(** C8 (amended): under [throwOnStdErr], a response of [exec] or
    [execModule] that has no error field and non-empty stderr makes the call
    fail with a StdErrError carrying that stderr, the daemon untouched (no
    result, no fallback call); and a stderr event relayed to a streaming call
    that is subscribed and whose stream has not ended yet ends the stream
    with a StdErrError carrying the event's text, after which nothing more is
    delivered on it. *)
Theorem throwOnStdErr_fails_with_StdErrError :
  (forall (c : BatchCall) (d : Daemon) (response : ExecResponse) (err : string),
     truthyField (error response) = false ->
     stderr response = Some err -> err <> "" ->
     truthy (getProp (optionsOf c) "throwOnStdErr") = true ->
     finish c (Fulfilled (Some response)) d = (d, Threw (StdErrError err))) /\
  (forall (d : Daemon) (sid : nat) (st : Stream) (o : Output),
     streams d !! sid = Some st ->
     subscribed st = true -> isStopped (subject st) = false ->
     truthy (getProp (streamOptions st) "throwOnStdErr") = true ->
     source o = SrcStderr ->
     exists st',
       streams (step d (EOutput o)) !! sid = Some st' /\
       subject st' = {| emitted := emitted (subject st) ++ [OnError (StdErrError (out o))];
                        isStopped := true |} /\
       forall evs, exists st'',
         streams (run evs (step d (EOutput o))) !! sid = Some st'' /\
         subject st'' = subject st').
Proof.
  split; [apply finish_stderr_error|].
  intros d sid st o Hst Hsub Hopen Hthrow Hsrc.
  exists (relayOutput o st). simpl. rewrite list_lookup_fmap, Hst. simpl.
  split; [reflexivity|].
  assert (Hsubj : subject (relayOutput o st)
                  = {| emitted := emitted (subject st) ++ [OnError (StdErrError (out o))];
                       isStopped := true |}).
  { unfold relayOutput. rewrite Hsub. simpl. unfold onOutput.
    rewrite Hsrc, Hthrow. unfold subject_error. rewrite Hopen. reflexivity. }
  split; [exact Hsubj|].
  intros evs. apply run_stream_frozen.
  - simpl. rewrite list_lookup_fmap, Hst. reflexivity.
  - rewrite Hsubj. reflexivity.
Qed.

(** Counterexample to C8 as stated: a response that carries an error field
    next to its stderr is a daemon failure even under [throwOnStdErr]; the
    call goes to the fallback executor instead of failing with a
    StdErrError. *)
Lemma stderr_with_daemon_error_goes_to_fallback :
  processResponse LF failedWithStderr strictOptions
  = Throw (DaemonError "Failed to execute using the daemon, boom") /\
  exec_resume scriptArgs strictOptions (Fulfilled (Some failedWithStderr))
    (initial posix)
  = (callFallback (FExec scriptArgs strictOptions)
       (trace LogWarning fallbackWarning (initial posix)),
     ViaFallback (FExec scriptArgs strictOptions)) /\
  snd (exec_resume scriptArgs strictOptions (Fulfilled (Some failedWithStderr))
         (initial posix))
  <> Threw (StdErrError "oops").
Proof. repeat split. discriminate. Qed.

(** ** The theorems at sample inputs *)

Lemma closed_signal_wins_race_witness :
  isAlive (initial posix) = true /\
  promiseState oneInFlight (RaceOf 0) = Pending /\
  connectionClosedDeferred (step oneInFlight (EProcExit (Some 1%Z)))
  = Some exitedWithOne /\
  promiseState
    (run [EAnswer 0 (Fulfilled (Some bothChannels))]
       (step oneInFlight (EProcExit (Some 1%Z))))
    (RaceOf 0)
  = Settled (Rejected exitedWithOne).
Proof.
  split; [reflexivity|]. split; [reflexivity|]. split; [reflexivity|].
  exact (proj1 (proj2 (proj2 (proj2
           (closed_signal_wins_race (initial posix) "exec_file" "script.py"
              ["--flag"] JsUndefined JsUndefined [] (EProcExit (Some 1%Z))
              exitedWithOne eq_refl eq_refl eq_refl eq_refl))))
           [EAnswer 0 (Fulfilled (Some bothChannels))]).
Defined.

Lemma dispose_leaves_request_pending_witness :
  isAlive (initial posix) = true /\
  promiseState (run [EProcExit None; EConnClose] (dispose oneInFlight)) (RaceOf 0)
  = Pending /\
  connectionClosedDeferred (run [EProcExit None; EConnClose] (dispose oneInFlight))
  = None.
Proof.
  split; [reflexivity|].
  assert (Hno : forall s, ~ In (EAnswer (length (requests (initial posix))) s)
                            [EProcExit None; EConnClose]).
  { intros s [H|[H|[]]]; discriminate. }
  destruct (dispose_leaves_request_pending (initial posix) "exec_file" "script.py"
              ["--flag"] JsUndefined JsUndefined [EProcExit None; EConnClose]
              eq_refl eq_refl eq_refl Hno) as (_ & Hp & Hd & _).
  split; [exact Hp | exact Hd].
Defined.

Lemma closed_daemon_stays_closed_witness :
  isCloseTrigger EConnClose = true /\
  isAlive (run ([EExec scriptArgs []] ++
                EConnClose :: [EAnswer 0 (Fulfilled (Some bothChannels))])
             (initial posix))
  = false.
Proof.
  split; [reflexivity|].
  exact (proj1 (closed_daemon_stays_closed posix [EExec scriptArgs []] EConnClose
                  [EAnswer 0 (Fulfilled (Some bothChannels))] eq_refl)).
Defined.

Lemma dispose_kills_and_unsubscribes_once_witness :
  In EDispose [EDispose; EConnClose; EDispose] /\
  killCalls (run [EDispose; EConnClose; EDispose] (initial posix)) = [KillSIGKILL] /\
  killCalls (run [EDispose; EConnClose; EDispose] (initial windows)) = [KillDefault].
Proof.
  split; [left; reflexivity|]. split.
  - exact (proj1 (dispose_kills_and_unsubscribes_once posix
                    [EDispose; EConnClose; EDispose] (or_introl eq_refl))).
  - exact (proj1 (dispose_kills_and_unsubscribes_once windows
                    [EDispose; EConnClose; EDispose] (or_introl eq_refl))).
Defined.

Lemma throwOnStdErr_fails_with_StdErrError_witness :
  finish (CallExec scriptArgs strictOptions) (Fulfilled (Some bothChannels))
    answeredStrict
  = (answeredStrict, Threw (StdErrError "err")) /\
  exists st',
    streams (step oneStreaming (EOutput (mkOutput SrcStderr "warn"))) !! 0%nat
    = Some st' /\
    subject st' = {| emitted := [OnError (StdErrError "warn")]; isStopped := true |}.
Proof.
  split.
  - apply (proj1 throwOnStdErr_fails_with_StdErrError
             (CallExec scriptArgs strictOptions) answeredStrict bothChannels "err");
      [reflexivity | reflexivity | discriminate | reflexivity].
  - destruct (proj2 throwOnStdErr_fails_with_StdErrError oneStreaming 0%nat
                (mkStream (FileTarget "script.py") ["--flag"] strictOptions
                   newSubject true "" (RaceOf 0) false false)
                (mkOutput SrcStderr "warn")
                eq_refl eq_refl eq_refl eq_refl eq_refl) as (st' & H1 & H2 & _).
    exists st'. split; [exact H1 | exact H2].
Defined.

(** ** Scenarios of the design document *)

Example gate_accepts_script :
  canExecFileUsingDaemon ["Script.PY"; "--flag"] [("cwd", JsString "/tmp")]
  = Normal true.
Proof. reflexivity. Qed.

Example gate_rejects_unknown_option :
  canExecFileUsingDaemon ["script.py"] [("cwd", JsString "/tmp"); ("shell", JsBool true)]
  = Normal false.
Proof. reflexivity. Qed.

Example gate_rejects_other_suffix :
  canExecFileUsingDaemon ["script.sh"] [] = Normal false.
Proof. reflexivity. Qed.

(** [executeModule("pip", ["list"], {cwd: "/tmp"})] answered with
    [{stdout: "pkg==1.0", stderr: ""}] returns the answer unchanged. *)
Example module_result_unchanged :
  execModule_resume "pip" ["list"] [("cwd", JsString "/tmp")]
    (Fulfilled (Some (mkResponse None "pkg==1.0" (Some ""))))
    (initial posix)
  = (initial posix, Returned (mkResponse None "pkg==1.0" (Some ""))).
Proof. reflexivity. Qed.

(** A relayed stderr event under [mergeStdOutErr] is observed as stdout. *)
Example stream_merges_stderr :
  onOutput mergeOptions (mkOutput SrcStderr "warn") newSubject
  = {| emitted := [OnNext (mkOutput SrcStdout "warn")]; isStopped := false |}.
Proof. reflexivity. Qed.

(** The process exits while [exec(["script.py", "--flag"], {})] is in flight:
    the call is rejected with the ConnectionClosedError and makes one
    fallback call with the same arguments and options. *)
Example exit_mid_request_falls_back :
  promiseState (step oneInFlight (EProcExit (Some 1%Z))) (RaceOf 0)
  = Settled (Rejected exitedWithOne) /\
  fallbackCalls (resume (CallExec scriptArgs []) (RaceOf 0)
                   (step oneInFlight (EProcExit (Some 1%Z))))
  = [FExec scriptArgs []].
Proof. split; reflexivity. Qed.

(** After [dispose], [throwIfRPCConnectionIsDead] raises the
    ConnectionClosedError, while the closed promise that [sendRequest] hands
    out is still pending and the suspended [exec] call does not resume, even
    after the process has exited and the connection has closed. *)
Example disposed_daemon_two_answers :
  throwIfRPCConnectionIsDead (dispose oneInFlight)
  = Throw (ConnectionClosedError "Daemon disposed from dispose()") /\
  promiseState (run [EProcExit None; EConnClose] (dispose oneInFlight)) ClosedPromise
  = Pending /\
  resume (CallExec scriptArgs []) (RaceOf 0)
    (run [EProcExit None; EConnClose] (dispose oneInFlight))
  = run [EProcExit None; EConnClose] (dispose oneInFlight) /\
  fallbackCalls (run [EProcExit None; EConnClose] (dispose oneInFlight)) = [].
Proof. repeat split. Qed.

(** Without [dispose], the same two events reject the pending call. *)
Example undisposed_daemon_rejects :
  promiseState (run [EProcExit None; EConnClose] oneInFlight) (RaceOf 0)
  = Settled (Rejected (ConnectionClosedError "Daemon Processed died with exit code")).
Proof. reflexivity. Qed.

(** * Further properties of the daemon *)

(** ** The closed promise and the closed message *)

Lemma append_empty_r (a : string) : a +:+ "" = a.
Proof. induction a as [|c a IH]; [reflexivity|]. change (String c (a +:+ "") = String c a). now rewrite IH. Qed.

Lemma append_assoc3 (a b c : string) : (a +:+ b) +:+ c = a +:+ (b +:+ c).
Proof.
  induction a as [|x a IH]; [reflexivity|].
  change (String x ((a +:+ b) +:+ c) = String x (a +:+ (b +:+ c))). now rewrite IH.
Qed.

Lemma step_alive_true (d : Daemon) (e : Event) :
  isAlive (step d e) = true -> isAlive d = true.
Proof.
  intros H. destruct (isAlive d) eqn:E; [reflexivity|].
  rewrite (step_alive_false d e E) in H. discriminate.
Qed.

Ltac dead_alive :=
  match goal with
  | Ha : isAlive _ = true |- _ =>
      simpl in Ha;
      try match goal with
          | Hb : negb (disposed _) = _ |- _ => rewrite Hb in Ha
          end;
      unfold isAlive in Ha; simpl in Ha;
      first
        [ discriminate
        | apply String.eqb_eq in Ha;
          match type of Ha with
          | context [connectionClosedMessage ?d] =>
              destruct (connectionClosedMessage d); discriminate
          end ]
  end.

Lemma step_deferred_alive (d : Daemon) (e : Event) :
  connectionClosedDeferred d = None -> isAlive (step d e) = true ->
  connectionClosedDeferred (step d e) = None.
Proof.
  intros Hn Ha. destruct e; simpl in *; frame; try dead_alive.
Qed.

Lemma step_disposed_alive (d : Daemon) (e : Event) :
  disposed d = false -> isAlive (step d e) = true ->
  disposed (step d e) = false.
Proof.
  intros Hn Ha. destruct e; simpl in *; frame; try dead_alive.
Qed.

Lemma step_aliveOk (d : Daemon) (e : Event) : aliveOk d -> aliveOk (step d e).
Proof.
  intros Hok Halive.
  destruct (Hok (step_alive_true d e Halive)) as [Hnone Hdisp].
  split; [now apply step_deferred_alive | now apply step_disposed_alive].
Qed.

Lemma run_aliveOk (evs : list Event) (d : Daemon) : aliveOk d -> aliveOk (run evs d).
Proof.
  revert d. induction evs as [|e evs IH]; intros d H; simpl; [exact H|].
  apply IH, step_aliveOk, H.
Qed.

Lemma aliveOk_initial (pf : Platform) : aliveOk (initial pf).
Proof. intros _. split; reflexivity. Qed.

Lemma step_message_grows (d : Daemon) (e : Event) :
  disposed (step d e) = false ->
  exists more, connectionClosedMessage (step d e) = connectionClosedMessage d +:+ more.
Proof.
  intros Hd. destruct e; simpl in *;
    try (rewrite (proj1 (dispose_fields d)) in Hd; discriminate).
  all: frame.
  all: first [ now (exists ""; rewrite append_empty_r) | eexists; reflexivity ].
Qed.

Lemma step_undisposed (d : Daemon) (e : Event) :
  disposed (step d e) = false -> disposed d = false.
Proof.
  intros H. destruct (disposed d) eqn:E; [|reflexivity].
  rewrite (step_disposed d e E) in H. discriminate.
Qed.

Lemma step_closedOk (d : Daemon) (e : Event) :
  aliveOk d -> closedOk d -> closedOk (step d e).
Proof.
  intros Ha Hc ex Hex.
  assert (Hdead : connectionClosedMessage (step d e) <> "").
  { apply isAlive_false. destruct (isAlive (step d e)) eqn:E; [|reflexivity].
    destruct (step_aliveOk d e Ha E) as [Hn _]. congruence. }
  destruct (step_requests_shape d e)
    as [(_ & E) | [(r0 & _ & _ & E) | [(ex' & _ & _ & Hm & E & _) | (id' & s' & r' & _ & _ & _ & _ & E)]]].
  3: { rewrite Hex in E. injection E as <-. eexists. split; [exact Hm|].
       split; [exact Hdead|]. intros _. exists "". now rewrite append_empty_r. }
  all: rewrite E in Hex; destruct (Hc ex Hex) as (m & -> & Hne & Hpre);
    exists m; split; [reflexivity|]; split; [exact Hne|];
    intros Hd; destruct (Hpre (step_undisposed d e Hd)) as (more & Hmore);
    destruct (step_message_grows d e Hd) as (more' & ->);
    exists (more +:+ more'); rewrite Hmore; apply append_assoc3.
Qed.

Lemma closedOk_initial (pf : Platform) : closedOk (initial pf).
Proof. intros ex H. discriminate. Qed.

Lemma run_closedOk (evs : list Event) (d : Daemon) :
  aliveOk d -> closedOk d -> closedOk (run evs d).
Proof.
  revert d. induction evs as [|e evs IH]; intros d Ha Hc; simpl; [exact Hc|].
  apply IH; [now apply step_aliveOk | now apply step_closedOk].
Qed.

(** X1: as long as the daemon is alive, at any point of its life, the closed
    promise is pending, [dispose] has not run, the process has not been sent a
    signal, every connection listener is still subscribed, and
    [throwIfRPCConnectionIsDead] does not raise. *)
Theorem alive_daemon_is_untouched (pf : Platform) (evs : list Event) :
  isAlive (run evs (initial pf)) = true ->
  connectionClosedDeferred (run evs (initial pf)) = None /\
  disposed (run evs (initial pf)) = false /\
  killCalls (run evs (initial pf)) = [] /\
  (forall c, listening c (run evs (initial pf)) = true) /\
  throwIfRPCConnectionIsDead (run evs (initial pf)) = Normal tt.
Proof.
  intros Halive.
  destruct (run_aliveOk evs _ (aliveOk_initial pf) Halive) as [Hn Hd].
  pose proof (run_lifecycleOk evs _ (lifecycleOk_initial pf)) as Hl.
  split; [exact Hn|]. split; [exact Hd|].
  split; [|split].
  - unfold lifecycleOk in Hl. rewrite Hd in Hl. apply Hl.
  - intros c. now apply lifecycleOk_listening.
  - unfold throwIfRPCConnectionIsDead. now rewrite Halive.
Qed.

(** X2: once the closed promise has been rejected, its error is a
    ConnectionClosedError with a non-empty message and the daemon is not
    alive.  The error is fixed by the first close event: later events leave
    it as it is, while (until [dispose]) they extend the closed message, which
    starts with the error's message and is what [throwIfRPCConnectionIsDead]
    raises. *)
Theorem closed_error_names_first_reason
    (pf : Platform) (evs : list Event) (ex : JsError) :
  connectionClosedDeferred (run evs (initial pf)) = Some ex ->
  exists m,
    ex = ConnectionClosedError m /\ m <> "" /\
    isAlive (run evs (initial pf)) = false /\
    (disposed (run evs (initial pf)) = false ->
     exists more,
       connectionClosedMessage (run evs (initial pf)) = m +:+ more /\
       throwIfRPCConnectionIsDead (run evs (initial pf))
       = Throw (ConnectionClosedError (m +:+ more))) /\
    (forall later,
       connectionClosedDeferred (run later (run evs (initial pf))) = Some ex).
Proof.
  intros Hex.
  destruct (run_closedOk evs _ (aliveOk_initial pf) (closedOk_initial pf) ex Hex)
    as (m & -> & Hne & Hpre).
  assert (Hdead : isAlive (run evs (initial pf)) = false).
  { destruct (isAlive (run evs (initial pf))) eqn:E; [|reflexivity].
    destruct (run_aliveOk evs _ (aliveOk_initial pf) E). congruence. }
  exists m. split; [reflexivity|]. split; [exact Hne|]. split; [exact Hdead|].
  split.
  - intros Hd. destruct (Hpre Hd) as (more & Hmore). exists more.
    split; [exact Hmore|].
    unfold throwIfRPCConnectionIsDead. now rewrite Hdead, Hmore.
  - intros later.
    pose proof (run_promise_settled later (run evs (initial pf)) ClosedPromise
                  (Rejected (ConnectionClosedError m))) as H.
    simpl in H. unfold closedPromiseState in H. rewrite Hex in H.
    specialize (H eq_refl).
    destruct (connectionClosedDeferred (run later (run evs (initial pf))));
      congruence.
Qed.




(** ** The request table *)

Lemma step_requests_detail (d : Daemon) (e : Event) :
  (requests (step d e) = requests d /\
   connectionClosedDeferred (step d e) = connectionClosedDeferred d) \/
  (exists mth tgt args c v,
     requests (step d e)
     = requests d ++ [mkRequest mth tgt args c v Pending (closedPromiseState d)] /\
     connectionClosedDeferred (step d e) = connectionClosedDeferred d) \/
  (exists ex, connectionClosedDeferred d = None /\
              connectionClosedDeferred (step d e) = Some ex /\
              requests (step d e) = map (settleRace (Rejected ex)) (requests d)) \/
  (exists id s r, e = EAnswer id s /\ requests d !! id = Some r /\
                  answer r = Pending /\
                  requests (step d e) = <[id := settledBy s r]> (requests d) /\
                  connectionClosedDeferred (step d e) = connectionClosedDeferred d).
Proof.
  destruct e; simpl; frame.
  all: first
    [ left; split; solve [reflexivity | assumption]
    | right; left; do 5 eexists; split; solve [reflexivity | assumption]
    | right; right; left; eexists; repeat split;
      solve [reflexivity | assumption]
    | right; right; right; do 3 eexists; repeat split;
      solve [reflexivity | eassumption] ].
Qed.

Lemma settleRace_payload (s : Settlement) (r : Request) :
  samePayload r (settleRace s r) /\ answer (settleRace s r) = answer r.
Proof. unfold settleRace, samePayload. destruct (race r); simpl; auto 10. Qed.

Lemma settledBy_payload (s : Settlement) (r : Request) :
  samePayload r (settledBy s r) /\ answer (settledBy s r) = Settled s.
Proof.
  unfold settledBy, settleRace, samePayload. simpl. destruct (race r); simpl; auto 10.
Qed.

Lemma samePayload_refl (r : Request) : samePayload r r.
Proof. repeat split. Qed.

Lemma samePayload_trans (r1 r2 r3 : Request) :
  samePayload r1 r2 -> samePayload r2 r3 -> samePayload r1 r3.
Proof. unfold samePayload. intuition congruence. Qed.

Lemma step_request_payload (d : Daemon) (e : Event) (id : nat) (r : Request) :
  requests d !! id = Some r ->
  exists r', requests (step d e) !! id = Some r' /\ samePayload r r'.
Proof.
  intros Hr.
  destruct (step_requests_detail d e)
    as [(-> & _) | [(m & t & a & c & v & -> & _) | [(ex & _ & _ & ->) | (id' & s' & r' & _ & Hr' & _ & -> & _)]]].
  - exists r. split; [exact Hr | apply samePayload_refl].
  - exists r. split; [now apply lookup_app_l_Some | apply samePayload_refl].
  - exists (settleRace (Rejected ex) r). rewrite list_lookup_fmap, Hr.
    split; [reflexivity | apply settleRace_payload].
  - destruct (decide (id' = id)) as [->|Hne].
    + exists (settledBy s' r'). rewrite list_lookup_insert_eq
        by (now apply lookup_lt_Some in Hr).
      split; [reflexivity|]. assert (r' = r) as -> by congruence.
      apply settledBy_payload.
    + exists r. rewrite list_lookup_insert_ne by exact Hne.
      split; [exact Hr | apply samePayload_refl].
Qed.

(** X5: no event removes a request from the connection or rewrites what was
    sent: the request table never shrinks, and a request keeps its method,
    target, arguments, cwd and env for good. *)
Theorem request_payload_is_stable
    (evs : list Event) (d : Daemon) (id : nat) (r : Request) :
  requests d !! id = Some r ->
  length (requests d) <= length (requests (run evs d)) /\
  exists r', requests (run evs d) !! id = Some r' /\ samePayload r r'.
Proof.
  revert d r. induction evs as [|e evs IH]; intros d r Hr; simpl.
  - split; [lia|]. exists r. split; [exact Hr | apply samePayload_refl].
  - destruct (step_request_payload d e id r Hr) as (r1 & Hr1 & Hp1).
    destruct (IH (step d e) r1 Hr1) as (Hlen & r2 & Hr2 & Hp2).
    split.
    + assert (length (requests d) <= length (requests (step d e))); [|lia].
      destruct (step_requests_detail d e)
        as [(-> & _) | [(m & t & a & c & v & -> & _) | [(ex & _ & _ & ->) | (id' & s' & r' & _ & _ & _ & -> & _)]]];
        rewrite ?length_app, ?length_map, ?length_insert; simpl; lia.
    + exists r2. split; [exact Hr2 | eapply samePayload_trans; eassumption].
Qed.

Lemma step_originOk (d : Daemon) (e : Event) : originOk d -> originOk (step d e).
Proof.
  unfold originOk. intros H.
  destruct (step_requests_detail d e)
    as [(-> & ->) | [(m & t & a & c & v & -> & ->) | [(ex & Hn & -> & ->) | (id' & s' & r' & _ & Hr' & Ha' & -> & ->)]]].
  - exact H.
  - apply Forall_app. split; [exact H|]. constructor; [|constructor].
    unfold originOf, closedPromiseState. simpl.
    destruct (connectionClosedDeferred d); eauto.
  - apply Forall_fmap. eapply Forall_impl; [exact H|].
    intros r Hr. unfold originOf, settleRace in *. rewrite Hn in Hr.
    destruct (race r) eqn:E; simpl; rewrite ?E.
    + right. eauto.
    + left. destruct Hr as [Hr | (ex' & [=] & _)]. exact Hr.
  - apply Forall_insert; [exact H|].
    pose proof (proj1 (Forall_lookup _ _) H id' r' Hr') as Hr.
    unfold originOf, settledBy, settleRace in *. simpl.
    destruct (race r') eqn:E; simpl; rewrite ?E.
    + left. reflexivity.
    + right. destruct Hr as [Hr | Hr]; [congruence | exact Hr].
Qed.

Lemma run_originOk (evs : list Event) (d : Daemon) : originOk d -> originOk (run evs d).
Proof.
  revert d. induction evs as [|e evs IH]; intros d H; simpl; [exact H|].
  apply IH, step_originOk, H.
Qed.

Lemma originOk_initial (pf : Platform) : originOk (initial pf).
Proof. constructor. Qed.


(** X3: in the life of a daemon, the race of a request is pending exactly
    while both the connection's answer and the closed promise are pending;
    once settled, it carries either the connection's answer or the closed
    promise's ConnectionClosedError, nothing else. *)
Theorem race_settles_with_answer_or_closure
    (pf : Platform) (evs : list Event) (id : nat) (r : Request) :
  requests (run evs (initial pf)) !! id = Some r ->
  (race r = Pending <->
   answer r = Pending /\ connectionClosedDeferred (run evs (initial pf)) = None) /\
  (forall s, race r = Settled s ->
     answer r = Settled s \/
     exists m, connectionClosedDeferred (run evs (initial pf))
               = Some (ConnectionClosedError m) /\
               s = Rejected (ConnectionClosedError m)).
Proof.
  intros Hr.
  pose proof (run_originOk evs _ (originOk_initial pf)) as Ho.
  pose proof (proj1 (Forall_lookup _ _) Ho id r Hr) as Hor.
  unfold originOf in Hor. split; [split|].
  - intros E. now rewrite E in Hor.
  - intros [Ha Hn]. destruct (race r) as [|s]; [reflexivity|].
    destruct Hor as [Hor | (ex & Hex & _)]; congruence.
  - intros s E. rewrite E in Hor. destruct Hor as [Hor | (ex & Hex & ->)]; [now left|].
    right.
    destruct (run_closedOk evs _ (aliveOk_initial pf) (closedOk_initial pf) ex Hex)
      as (m & -> & _).
    exists m. split; [exact Hex | reflexivity].
Qed.

(** X4: when the connection answers a request whose race is still pending,
    the race settles with that answer and keeps it through everything that
    follows, a later close of the daemon included. *)
Theorem answer_wins_race
    (pf : Platform) (evs : list Event) (id : nat) (s : Settlement)
    (later : list Event) :
  is_Some (requests (run evs (initial pf)) !! id) ->
  promiseState (run evs (initial pf)) (RaceOf id) = Pending ->
  promiseState (run later (step (run evs (initial pf)) (EAnswer id s))) (RaceOf id)
  = Settled s.
Proof.
  intros [r Hr] Hp. apply run_promise_settled.
  simpl in Hp. rewrite Hr in Hp.
  pose proof (run_originOk evs _ (originOk_initial pf)) as Ho.
  pose proof (proj1 (Forall_lookup _ _) Ho id r Hr) as Hor.
  unfold originOf in Hor. rewrite Hp in Hor. destruct Hor as [Ha _].
  simpl. unfold onAnswer. rewrite Hr, Ha. simpl.
  rewrite list_lookup_insert_eq by (now apply lookup_lt_Some in Hr).
  unfold settleRace. simpl. now rewrite Hp.
Qed.




(** ** Who kills, who falls back *)

Lemma step_lifecycle_fields (d : Daemon) (e : Event) :
  e <> EDispose ->
  disposed (step d e) = disposed d /\
  killCalls (step d e) = killCalls d /\
  disposables (step d e) = disposables d.
Proof.
  intros Hne. destruct e; try congruence; simpl; frame; auto.
Qed.

(** X15: only [dispose] kills the process and unsubscribes the connection
    listeners: a sequence of events without a [dispose] (connection errors and
    process exits included) leaves the disposed flag, the kill calls and the
    listeners as they were. *)
Theorem only_dispose_kills (evs : list Event) (d : Daemon) :
  ~ In EDispose evs ->
  disposed (run evs d) = disposed d /\
  killCalls (run evs d) = killCalls d /\
  disposables (run evs d) = disposables d.
Proof.
  revert d. induction evs as [|e evs IH]; intros d Hno; simpl; [auto|].
  destruct (IH (step d e)) as (H1 & H2 & H3).
  { intros Hin. apply Hno. now right. }
  destruct (step_lifecycle_fields d e) as (E1 & E2 & E3).
  { intros ->. apply Hno. now left. }
  rewrite H1, H2, H3. auto.
Qed.

Lemma step_message_cases (d : Daemon) (e : Event) :
  connectionClosedMessage (step d e) = connectionClosedMessage d \/
  disposed (step d e) = true \/
  exists ex, connectionClosedDeferred (step d e) = Some ex.
Proof.
  destruct e; simpl;
    try (right; left; apply dispose_fields).
  all: frame.
  all: first
    [ left; reflexivity
    | right; right; eexists; solve [reflexivity | eassumption] ].
Qed.

Lemma step_closes (d : Daemon) (e : Event) :
  isAlive d = true -> isAlive (step d e) = false -> disposed (step d e) = false ->
  exists ex, connectionClosedDeferred (step d e) = Some ex.
Proof.
  intros Ha Hdead Hd.
  destruct (step_message_cases d e) as [Hm | [Hm | Hm]]; [| congruence | exact Hm].
  unfold isAlive in *. rewrite Hm in Hdead. congruence.
Qed.

Lemma step_deadOk (d : Daemon) (e : Event) : deadOk d -> deadOk (step d e).
Proof.
  intros H Hd Hdead.
  destruct (isAlive d) eqn:Ha; [now apply step_closes|].
  destruct (H (step_undisposed d e Hd) Ha) as (ex & Hex). exists ex.
  pose proof (step_promise_settled d e ClosedPromise (Rejected ex)) as Hs.
  simpl in Hs. unfold closedPromiseState in Hs. rewrite Hex in Hs.
  specialize (Hs eq_refl).
  destruct (connectionClosedDeferred (step d e)); congruence.
Qed.

Lemma run_deadOk (evs : list Event) (d : Daemon) : deadOk d -> deadOk (run evs d).
Proof.
  revert d. induction evs as [|e evs IH]; intros d H; simpl; [exact H|].
  apply IH, step_deadOk, H.
Qed.

Lemma deadOk_initial (pf : Platform) : deadOk (initial pf).
Proof. intros _ H. discriminate. Qed.

(** X9: on a daemon that has closed without being disposed, the closed
    promise is already rejected with a ConnectionClosedError;
    [sendRequestWithoutArgs] hands it out and leaves the daemon as it is (no
    request, no log entry), and [sendRequest] hands it out after logging the
    request-after-death error. *)
Theorem closed_undisposed_daemon_rejects_at_once
    (pf : Platform) (evs : list Event) :
  isAlive (run evs (initial pf)) = false ->
  disposed (run evs (initial pf)) = false ->
  exists m,
    promiseState (run evs (initial pf)) ClosedPromise
    = Settled (Rejected (ConnectionClosedError m)) /\
    (forall mth,
       sendRequestWithoutArgs mth (run evs (initial pf))
       = (run evs (initial pf), ClosedPromise)) /\
    (forall mth tgt args c v,
       sendRequest mth tgt args c v (run evs (initial pf))
       = (trace LogError "Daemon is handling a request after death."
            (run evs (initial pf)), ClosedPromise)).
Proof.
  intros Hdead Hd.
  destruct (run_deadOk evs _ (deadOk_initial pf) Hd Hdead) as (ex & Hex).
  destruct (run_closedOk evs _ (aliveOk_initial pf) (closedOk_initial pf) ex Hex)
    as (m & -> & _).
  exists m. split; [|split].
  - simpl. unfold closedPromiseState. now rewrite Hex.
  - intros mth. unfold sendRequestWithoutArgs. now rewrite Hdead.
  - intros. now apply sendRequest_dead.
Qed.

Lemma sendRequest_exit_known (mth tgt : string) (args : list string)
    (c v : JsValue) (d : Daemon) (z : Z) :
  procExitCode d = Some z ->
  sendRequest mth tgt args c v d
  = (trace LogError "Daemon is handling a request after death." d, ClosedPromise).
Proof.
  intros Hz. unfold sendRequest. rewrite Hz. simpl.
  rewrite orb_true_r. simpl. rewrite Hz. simpl. now rewrite andb_false_r.
Qed.

(** X8: while the daemon still counts as alive but the process's exit code is
    already known, an [exec] that passes the gate sends no request and makes
    no fallback call: it waits on the closed promise, which is pending.  The
    process's exit event then rejects that promise with a
    ConnectionClosedError, and the resumed call makes its one fallback call. *)
Theorem request_after_exit_code_waits_for_exit_event
    (pf : Platform) (evs : list Event) (z : Z) (a0 : string) (rest : list string)
    (options : SpawnOptions) (code : option Z) :
  isAlive (run evs (initial pf)) = true ->
  procExitCode (run evs (initial pf)) = Some z ->
  canExecFileUsingDaemon (a0 :: rest) options = Normal true ->
  exists d',
    exec (a0 :: rest) options (run evs (initial pf)) = (d', Suspended ClosedPromise) /\
    requests d' = requests (run evs (initial pf)) /\
    fallbackCalls d' = fallbackCalls (run evs (initial pf)) /\
    promiseState d' ClosedPromise = Pending /\
    (exists m, promiseState (step d' (EProcExit code)) ClosedPromise
               = Settled (Rejected (ConnectionClosedError m))) /\
    fallbackCalls (resume (CallExec (a0 :: rest) options) ClosedPromise
                     (step d' (EProcExit code)))
    = fallbackCalls (run evs (initial pf)) ++ [FExec (a0 :: rest) options].
Proof.
  intros Halive Hz Hgate.
  destruct (run_aliveOk evs _ (aliveOk_initial pf) Halive) as [Hn Hd].
  set (d := run evs (initial pf)) in *.
  exists (trace LogError "Daemon is handling a request after death." d).
  unfold exec. rewrite Halive, Hgate. unfold execFileWithDaemon.
  rewrite (sendRequest_exit_known _ _ _ _ _ _ _ Hz).
  split; [reflexivity|]. split; [reflexivity|]. split; [reflexivity|].
  split; [simpl; unfold closedPromiseState; simpl; now rewrite Hn|].
  unfold resume. simpl. unfold onProcExit, logConnectionStatus. simpl.
  rewrite Hd. simpl. unfold rejectClosed. simpl. rewrite Hn.
  destruct code as [c|]; [destruct (Z.eqb c 0)|]; simpl;
    unfold closedPromiseState; simpl; (split; [eexists; reflexivity | reflexivity]).
Qed.


(** X11: the fallback executor is called by the four public methods only (for
    the batch methods also when they resume), at most once per step and with
    the caller's own arguments and options.  No other event calls it; in
    particular a streaming call whose start fails is not retried through the
    fallback. *)
Theorem fallback_only_from_public_methods (d : Daemon) (e : Event) :
  fallbackCalls (step d e) = fallbackCalls d \/
  exists c, fallbackFor e = Some c /\
            fallbackCalls (step d e) = fallbackCalls d ++ [c].
Proof.
  destruct e; simpl.
  all: try (destruct c).
  all: frame.
  all: first [ left; reflexivity | right; eexists; split; reflexivity ].
Qed.

(** X6: on a live daemon whose process has no exit code, a call that the gate
    accepts sends exactly one request and makes no fallback call.  [exec]
    sends "exec_file" with the first argument as file name and the remaining
    arguments as args; [execModule] sends "exec_module" with the module name
    and all arguments; the observable methods send "exec_file_observable" and
    "exec_module_observable" and open one subscribed stream.  cwd and env are
    the options' own. *)
Theorem accepted_call_sends_one_request
    (d : Daemon) (a0 : string) (rest : list string) (options : SpawnOptions) :
  isAlive d = true -> procExitCode d = None ->
  areOptionsSupported options = true ->
  let request mth tgt args :=
    mkRequest mth tgt args (getProp options "cwd") (getProp options "env")
      Pending (closedPromiseState d) in
  let opened t args :=
    mkStream t args options newSubject true "" (RaceOf (length (requests d)))
      false false in
  (endsWith (toLowerCase a0) ".py" = true ->
   exec (a0 :: rest) options d
   = (setRequests (requests d ++ [request "exec_file" a0 rest]) d,
      Suspended (RaceOf (length (requests d)))) /\
   execObservable (a0 :: rest) options d
   = (setStreams (streams d ++ [opened (FileTarget a0) rest])
        (setRequests (requests d ++ [request "exec_file_observable" a0 rest]) d),
      ObservableOf (length (streams d)))) /\
  (forall m args,
     execModule m args options d
     = (setRequests (requests d ++ [request "exec_module" m args]) d,
        Suspended (RaceOf (length (requests d)))) /\
     execModuleObservable m args options d
     = (setStreams (streams d ++ [opened (ModuleTarget m) args])
          (setRequests (requests d ++ [request "exec_module_observable" m args]) d),
        ObservableOf (length (streams d)))).
Proof.
  intros Halive Hcode Hopts request opened. split.
  - intros Hpy.
    unfold exec, execObservable, canExecFileUsingDaemon, execAsObservable,
      execFileWithDaemon. simpl.
    rewrite Halive, Hpy, Hopts. simpl.
    rewrite !(sendRequest_alive _ _ _ _ _ _ Halive Hcode). split; reflexivity.
  - intros m args.
    unfold execModule, execModuleObservable, canExecModuleUsingDaemon,
      execAsObservable, execModuleWithDaemon.
    rewrite Halive, Hopts. simpl.
    rewrite !(sendRequest_alive _ _ _ _ _ _ Halive Hcode). split; reflexivity.
Qed.


(** ** Post-processing, case by case *)

Lemma truthyField_true (f : option string) :
  truthyField f = true -> exists s, f = Some s /\ s <> "".
Proof.
  destruct f as [s|]; simpl; [|discriminate].
  intros H. exists s. split; [reflexivity|].
  now apply String.eqb_neq, negb_true_iff.
Qed.

(** X10: [processResponse] either returns the response or raises one of two
    errors.  What it returns has the error and stderr fields of the response
    and a stdout that starts with the response's stdout; it is the response
    itself when stderr is empty or absent, or when [mergeStdOutErr] is not
    set.  What it raises is a DaemonError "Failed to execute using the
    daemon, " followed by the response's non-empty error field, or else,
    under [throwOnStdErr], a StdErrError carrying the non-empty stderr. *)
Theorem processResponse_keeps_the_response
    (eol : string) (response : ExecResponse) (options : SpawnOptions) :
  match processResponse eol response options with
  | Normal result =>
      truthyField (error response) = false /\
      error result = error response /\
      stderr result = stderr response /\
      (exists more, stdout result = stdout response +:+ more) /\
      (truthyField (stderr response) = false -> result = response) /\
      (truthy (getProp options "mergeStdOutErr") = false -> result = response)
  | Throw ex =>
      (exists msg, error response = Some msg /\ msg <> "" /\
                   ex = DaemonError ("Failed to execute using the daemon, " +:+ msg)) \/
      (exists err, truthyField (error response) = false /\
                   stderr response = Some err /\ err <> "" /\
                   truthy (getProp options "throwOnStdErr") = true /\
                   ex = StdErrError err)
  end.
Proof.
  unfold processResponse.
  destruct (truthyField (error response)) eqn:He.
  { left. destruct (truthyField_true _ He) as (msg & -> & Hne). eauto. }
  destruct (truthyField (stderr response)) eqn:Hs; simpl.
  - destruct (truthyField_true _ Hs) as (err & Herr & Hne).
    destruct (truthy (getProp options "throwOnStdErr")) eqn:Ht.
    + right. exists err. rewrite Herr. auto 10.
    + destruct (truthy (getProp options "mergeStdOutErr")) eqn:Hm; simpl.
      * repeat split; try discriminate. eauto.
      * repeat split; auto. exists "". now rewrite append_empty_r.
  - repeat split; auto. exists "". now rewrite append_empty_r.
Qed.





(** ** The life of a stream *)

Lemma step_streams_detail (d : Daemon) (e : Event) :
  streams (step d e) = streams d \/
  (exists t args options p,
     streams (step d e) = streams d ++ [freshStream t args options p]) \/
  (exists o, streams (step d e) = map (relayOutput o) (streams d)) \/
  (exists data, streams (step d e) = map (bufferStderr data) (streams d)) \/
  (exists sid st s,
     streams d !! sid = Some st /\ startSettled st = false /\
     promiseState d (startPromise st) = Settled s /\
     streams (step d e) = <[sid := startSettles s st]> (streams d)) \/
  (exists sid st,
     streams d !! sid = Some st /\ timerPending st = true /\
     streams (step d e) = <[sid := timerFires st]> (streams d)).
Proof.
  destruct e; simpl;
    try (right; right; left; eexists; reflexivity);
    try (right; right; right; left; eexists; reflexivity).
  all: frame.
  all: first
    [ left; reflexivity
    | right; left; do 4 eexists; reflexivity
    | right; right; right; right; left; do 3 eexists;
      repeat split; solve [eassumption | reflexivity]
    | right; right; right; right; right; do 2 eexists;
      repeat split; solve [eassumption | reflexivity] ].
Qed.

Section StreamInvariant.
Variable Q : Stream -> Prop.
Hypothesis Q_relay : forall o st, Q st -> Q (relayOutput o st).
Hypothesis Q_buffer : forall data st, Q st -> Q (bufferStderr data st).
Hypothesis Q_start : forall s st, Q st -> Q (startSettles s st).
Hypothesis Q_timer : forall st, Q st -> Q (timerFires st).

Lemma step_stream_at (d : Daemon) (e : Event) (sid : nat) (st : Stream) :
  streams d !! sid = Some st -> Q st ->
  exists st', streams (step d e) !! sid = Some st' /\ Q st'.
Proof.
  intros Hst HQ.
  destruct (step_streams_detail d e)
    as [-> | [(t & a & o & p & ->) | [(o & ->) | [(data & ->) |
        [(sid' & st1 & s & Hst1 & _ & _ & ->) | (sid' & st1 & Hst1 & _ & ->)]]]]].
  - eauto.
  - exists st. split; [now apply lookup_app_l_Some | exact HQ].
  - exists (relayOutput o st). rewrite list_lookup_fmap, Hst. auto.
  - exists (bufferStderr data st). rewrite list_lookup_fmap, Hst. auto.
  - destruct (decide (sid' = sid)) as [->|Hne].
    + exists (startSettles s st1).
      rewrite list_lookup_insert_eq by (now apply lookup_lt_Some in Hst).
      split; [reflexivity|]. apply Q_start. congruence.
    + exists st. rewrite list_lookup_insert_ne by exact Hne. auto.
  - destruct (decide (sid' = sid)) as [->|Hne].
    + exists (timerFires st1).
      rewrite list_lookup_insert_eq by (now apply lookup_lt_Some in Hst).
      split; [reflexivity|]. apply Q_timer. congruence.
    + exists st. rewrite list_lookup_insert_ne by exact Hne. auto.
Qed.

Lemma run_stream_at (evs : list Event) (d : Daemon) (sid : nat) (st : Stream) :
  streams d !! sid = Some st -> Q st ->
  exists st', streams (run evs d) !! sid = Some st' /\ Q st'.
Proof.
  revert d st. induction evs as [|e evs IH]; intros d st Hst HQ; simpl; [eauto|].
  destruct (step_stream_at d e sid st Hst HQ) as (st1 & Hst1 & HQ1).
  now apply (IH (step d e) st1).
Qed.

End StreamInvariant.

(** X12: when the start request of a streaming call settles while its stream
    is open: on a rejection, or a response with a non-empty error field (then
    a DaemonError carrying that field as it is), the stream delivers one
    stderr event, "Failed to run <target> as observable with args <args
    joined by spaces>", a line feed and the raw stderr buffered so far, and
    then ends with the error; on a response without error, or no response
    object at all, nothing is delivered.  In both cases the timer is armed,
    the fallback executor is not called and no request is sent. *)
Theorem start_outcome_is_reported
    (d : Daemon) (sid : nat) (st : Stream) (s : Settlement) :
  streams d !! sid = Some st ->
  startSettled st = false ->
  isStopped (subject st) = false ->
  promiseState d (startPromise st) = Settled s ->
  (forall ex,
     (s = Rejected ex \/
      exists response msg, s = Fulfilled (Some response) /\
                           error response = Some msg /\ msg <> "" /\
                           ex = DaemonError msg) ->
     exists st',
       streams (step d (EStartSettled sid)) !! sid = Some st' /\
       emitted (subject st')
       = emitted (subject st) ++
         [OnNext (mkOutput SrcStderr
                    (("Failed to run " +:+ targetName (moduleOrFile st) +:+
                      " as observable with args " +:+ join " " (streamArgs st)) +:+
                     LF +:+ stdErr st));
          OnError ex] /\
       isStopped (subject st') = true /\
       timerPending st' = true) /\
  ((s = Fulfilled None \/
    exists response, s = Fulfilled (Some response) /\
                     truthyField (error response) = false) ->
   exists st',
     streams (step d (EStartSettled sid)) !! sid = Some st' /\
     subject st' = subject st /\ subscribed st' = subscribed st /\
     timerPending st' = true) /\
  fallbackCalls (step d (EStartSettled sid)) = fallbackCalls d /\
  requests (step d (EStartSettled sid)) = requests d.
Proof.
  intros Hst Hns Hopen Hp.
  assert (Hlt : sid < length (streams d)) by now apply lookup_lt_Some in Hst.
  assert (Hstep : forall d0, streams d0 = streams d ->
            (setStreams (<[sid := startSettles s st]> (streams d0)) d0).(streams) !! sid
            = Some (startSettles s st)).
  { intros d0 E. simpl. rewrite E. now apply list_lookup_insert_eq. }
  simpl. unfold onStartSettled. rewrite Hst, Hns, Hp.
  split; [|split; [|split]].
  - intros ex Hfail.
    assert (Hf : startFailure s = Some ex).
    { destruct Hfail as [-> | (r & msg & -> & Hr & Hne & ->)]; [reflexivity|].
      simpl. rewrite Hr. simpl.
      apply String.eqb_neq in Hne. now rewrite Hne. }
    rewrite Hf. exists (startSettles s st).
    split; [now apply Hstep|].
    unfold startSettles. rewrite Hf. simpl.
    unfold subject_next, subject_error. rewrite Hopen. simpl.
    unfold startErrorMsg. rewrite <- app_assoc. repeat split.
  - intros Hok.
    assert (Hf : startFailure s = None).
    { destruct Hok as [-> | (r & -> & Hr)]; [reflexivity|]. simpl. now rewrite Hr. }
    rewrite Hf. exists (startSettles s st).
    split; [now apply Hstep|].
    unfold startSettles. rewrite Hf. repeat split.
  - destruct (startFailure s); reflexivity.
  - destruct (startFailure s); reflexivity.
Qed.



Lemma winding_relay (o : Output) (st : Stream) : winding st -> winding (relayOutput o st).
Proof.
  unfold winding, ended, relayOutput. intros H.
  destruct (subscribed st) eqn:E; [|rewrite E; exact H]. simpl.
  destruct H as (H1 & [H2 | (_ & H2)]); [|discriminate].
  split; [exact H1 | left; exact H2].
Qed.

Lemma winding_start (s : Settlement) (st : Stream) : winding st -> winding (startSettles s st).
Proof. unfold winding. simpl. auto. Qed.

Lemma subject_complete_stops (s : Subject) : isStopped (subject_complete s) = true.
Proof. unfold subject_complete. destruct (isStopped s) eqn:E; [exact E | reflexivity]. Qed.

Lemma winding_timer (st : Stream) : winding st -> winding (timerFires st).
Proof.
  unfold winding, ended. simpl. intros (H1 & _). split; [exact H1|].
  right. split; [apply subject_complete_stops | reflexivity].
Qed.


Lemma endedAs_closed (s : Subject) :
  isStopped s = true ->
  (forall o st, endedAs s st -> endedAs s (relayOutput o st)) /\
  (forall data st, endedAs s st -> endedAs s (bufferStderr data st)) /\
  (forall s0 st, endedAs s st -> endedAs s (startSettles s0 st)) /\
  (forall st, endedAs s st -> endedAs s (timerFires st)).
Proof.
  intros Hs. unfold endedAs. repeat split.
  - destruct H as (H1 & H2). unfold relayOutput. now rewrite H2.
  - destruct H as (H1 & H2). unfold relayOutput. now rewrite H2.
  - apply H.
  - apply H.
  - destruct H as (<- & H2). now apply startSettles_keeps.
  - apply H.
  - destruct H as (<- & H2). now apply timerFires_keeps.
Qed.

(** X13: once the start request of a streaming call has settled, running its
    continuation and then, after any events, the timer leaves the stream
    ended (errored or completed) and unsubscribed from the relay, and it
    stays exactly so through everything that follows. *)
Theorem stream_ends_after_start_and_timer
    (d : Daemon) (sid : nat) (st : Stream) (s : Settlement) (evs : list Event) :
  streams d !! sid = Some st ->
  startSettled st = false ->
  promiseState d (startPromise st) = Settled s ->
  exists st',
    streams (run (EStartSettled sid :: evs ++ [ETimer sid]) d) !! sid = Some st' /\
    isStopped (subject st') = true /\ subscribed st' = false /\
    forall later, exists st'',
      streams (run later (run (EStartSettled sid :: evs ++ [ETimer sid]) d)) !! sid
      = Some st'' /\
      subject st'' = subject st' /\ subscribed st'' = false.
Proof.
  intros Hst Hns Hp.
  assert (H1 : exists st1, streams (step d (EStartSettled sid)) !! sid = Some st1 /\
                           winding st1).
  { exists (startSettles s st). simpl. unfold onStartSettled. rewrite Hst, Hns, Hp.
    split; [|split; [reflexivity | left; reflexivity]].
    destruct (startFailure s); simpl; apply list_lookup_insert_eq;
      now apply lookup_lt_Some in Hst. }
  destruct H1 as (st1 & Hst1 & Hw1).
  destruct (run_stream_at winding winding_relay (fun _ _ H => H) winding_start
              winding_timer evs _ sid st1 Hst1 Hw1) as (st2 & Hst2 & Hw2).
  set (dmid := run evs (step d (EStartSettled sid))) in *.
  assert (H3 : exists st3,
             streams (step dmid (ETimer sid)) !! sid = Some st3 /\ ended st3).
  { change (step dmid (ETimer sid)) with (onTimer sid dmid).
    unfold onTimer. rewrite Hst2. destruct Hw2 as (_ & [Ht | He]).
    - rewrite Ht. exists (timerFires st2). split.
      + simpl. apply list_lookup_insert_eq. now apply lookup_lt_Some in Hst2.
      + split; [apply subject_complete_stops | reflexivity].
    - destruct (timerPending st2).
      + exists (timerFires st2). split.
        * simpl. apply list_lookup_insert_eq. now apply lookup_lt_Some in Hst2.
        * split; [apply subject_complete_stops | reflexivity].
      + exists st2. auto. }
  destruct H3 as (st3 & Hst3 & Hstop & Hunsub).
  assert (Hrun : run (EStartSettled sid :: evs ++ [ETimer sid]) d
                 = step dmid (ETimer sid)).
  { subst dmid. simpl. rewrite run_app. reflexivity. }
  rewrite Hrun. exists st3. split; [exact Hst3|]. split; [exact Hstop|].
  split; [exact Hunsub|].
  intros later.
  destruct (endedAs_closed (subject st3) Hstop) as (C1 & C2 & C3 & C4).
  apply (run_stream_at (endedAs (subject st3)) C1 C2 C3 C4 later _ sid st3 Hst3).
  split; [reflexivity | exact Hunsub].
Qed.

(** X14: an output notification is relayed to every stream of the daemon
    that is still subscribed, whichever call it belongs to, and to no
    unsubscribed one.  On an open stream without [throwOnStdErr], a stdout
    event is delivered unchanged, and a stderr event is delivered as a stdout
    event with the same text under [mergeStdOutErr] and unchanged
    otherwise. *)
Theorem relay_reaches_every_open_stream
    (d : Daemon) (o : Output) (sid : nat) (st : Stream) :
  streams d !! sid = Some st ->
  (subscribed st = false ->
   streams (step d (EOutput o)) !! sid = Some st) /\
  (subscribed st = true -> isStopped (subject st) = false ->
   truthy (getProp (streamOptions st) "throwOnStdErr") = false ->
   exists st',
     streams (step d (EOutput o)) !! sid = Some st' /\
     isStopped (subject st') = false /\
     emitted (subject st')
     = emitted (subject st) ++
       [OnNext match source o with
               | SrcStdout => o
               | SrcStderr =>
                   if truthy (getProp (streamOptions st) "mergeStdOutErr")
                   then mkOutput SrcStdout (out o) else o
               end]).
Proof.
  intros Hst. simpl. rewrite list_lookup_fmap, Hst. simpl.
  unfold relayOutput. split.
  - intros ->. reflexivity.
  - intros -> Hopen Hthrow. eexists. split; [reflexivity|]. simpl.
    unfold onOutput. rewrite Hthrow.
    destruct (source o); [|destruct (truthy (getProp (streamOptions st) "mergeStdOutErr"))];
      unfold subject_next; rewrite Hopen; simpl; split; reflexivity.
Qed.



(** ** These properties at sample inputs *)

Lemma alive_daemon_is_untouched_witness :
  isAlive (run [EExec scriptArgs []; EAnswer 0 (Fulfilled None)] (initial posix))
  = true /\
  killCalls (run [EExec scriptArgs []; EAnswer 0 (Fulfilled None)] (initial posix))
  = [].
Proof.
  split; [reflexivity|].
  exact (proj1 (proj2 (proj2
           (alive_daemon_is_untouched posix
              [EExec scriptArgs []; EAnswer 0 (Fulfilled None)] eq_refl)))).
Defined.

Lemma closed_error_names_first_reason_witness :
  connectionClosedDeferred
    (run [EConnClose; EProcExit (Some 1%Z)] (initial posix))
  = Some closedByPeer /\
  exists m,
    closedByPeer = ConnectionClosedError m /\ m <> "" /\
    isAlive (run [EConnClose; EProcExit (Some 1%Z)] (initial posix)) = false /\
    (disposed (run [EConnClose; EProcExit (Some 1%Z)] (initial posix)) = false ->
     exists more,
       connectionClosedMessage (run [EConnClose; EProcExit (Some 1%Z)] (initial posix))
       = m +:+ more /\
       throwIfRPCConnectionIsDead
         (run [EConnClose; EProcExit (Some 1%Z)] (initial posix))
       = Throw (ConnectionClosedError (m +:+ more))) /\
    (forall later,
       connectionClosedDeferred
         (run later (run [EConnClose; EProcExit (Some 1%Z)] (initial posix)))
       = Some closedByPeer).
Proof.
  split; [reflexivity|].
  exact (closed_error_names_first_reason posix [EConnClose; EProcExit (Some 1%Z)]
           closedByPeer eq_refl).
Defined.

Lemma race_settles_with_answer_or_closure_witness :
  requests (run [EExec scriptArgs []] (initial posix)) !! 0%nat = Some inFlightRequest /\
  (race inFlightRequest = Pending <->
   answer inFlightRequest = Pending /\
   connectionClosedDeferred (run [EExec scriptArgs []] (initial posix)) = None).
Proof.
  split; [reflexivity|].
  exact (proj1 (race_settles_with_answer_or_closure posix [EExec scriptArgs []]
                  0 inFlightRequest eq_refl)).
Defined.

Lemma answer_wins_race_witness :
  promiseState (run [EExec scriptArgs []] (initial posix)) (RaceOf 0) = Pending /\
  promiseState
    (run [EProcExit None]
       (step (run [EExec scriptArgs []] (initial posix))
          (EAnswer 0 (Fulfilled (Some bothChannels)))))
    (RaceOf 0)
  = Settled (Fulfilled (Some bothChannels)).
Proof.
  split; [reflexivity|].
  exact (answer_wins_race posix [EExec scriptArgs []] 0
           (Fulfilled (Some bothChannels)) [EProcExit None]
           (ex_intro _ inFlightRequest eq_refl) eq_refl).
Defined.

Lemma request_payload_is_stable_witness :
  requests oneInFlight !! 0%nat = Some inFlightRequest /\
  length (requests oneInFlight)
  <= length (requests (run [EProcExit None; EExec scriptArgs []] oneInFlight)) /\
  exists r',
    requests (run [EProcExit None; EExec scriptArgs []] oneInFlight) !! 0%nat
    = Some r' /\
    samePayload inFlightRequest r'.
Proof.
  split; [reflexivity|].
  exact (request_payload_is_stable [EProcExit None; EExec scriptArgs []]
           oneInFlight 0 inFlightRequest eq_refl).
Defined.

Lemma accepted_call_sends_one_request_witness :
  isAlive (initial posix) = true /\
  areOptionsSupported strictOptions = true /\
  exec scriptArgs strictOptions (initial posix)
  = (setRequests
       [mkRequest "exec_file" "script.py" ["--flag"] JsUndefined JsUndefined
          Pending Pending] (initial posix),
     Suspended (RaceOf 0)).
Proof.
  split; [reflexivity|]. split; [reflexivity|].
  exact (proj1 (proj1 (accepted_call_sends_one_request (initial posix) "script.py"
                         ["--flag"] strictOptions eq_refl eq_refl eq_refl)
                  eq_refl)).
Defined.



Lemma request_after_exit_code_waits_for_exit_event_witness :
  procExitCode (run [EExitCode 1%Z] (initial posix)) = Some 1%Z /\
  exists d',
    exec scriptArgs [] (run [EExitCode 1%Z] (initial posix))
    = (d', Suspended ClosedPromise) /\
    requests d' = requests (run [EExitCode 1%Z] (initial posix)) /\
    fallbackCalls d' = fallbackCalls (run [EExitCode 1%Z] (initial posix)) /\
    promiseState d' ClosedPromise = Pending /\
    (exists m, promiseState (step d' (EProcExit (Some 1%Z))) ClosedPromise
               = Settled (Rejected (ConnectionClosedError m))) /\
    fallbackCalls (resume (CallExec scriptArgs []) ClosedPromise
                     (step d' (EProcExit (Some 1%Z))))
    = fallbackCalls (run [EExitCode 1%Z] (initial posix)) ++ [FExec scriptArgs []].
Proof.
  split; [reflexivity|].
  exact (request_after_exit_code_waits_for_exit_event posix [EExitCode 1%Z] 1%Z
           "script.py" ["--flag"] [] (Some 1%Z) eq_refl eq_refl eq_refl).
Defined.

Lemma closed_undisposed_daemon_rejects_at_once_witness :
  isAlive (run [EConnClose] (initial posix)) = false /\
  disposed (run [EConnClose] (initial posix)) = false /\
  exists m,
    promiseState (run [EConnClose] (initial posix)) ClosedPromise
    = Settled (Rejected (ConnectionClosedError m)) /\
    (forall mth,
       sendRequestWithoutArgs mth (run [EConnClose] (initial posix))
       = (run [EConnClose] (initial posix), ClosedPromise)) /\
    (forall mth tgt args c v,
       sendRequest mth tgt args c v (run [EConnClose] (initial posix))
       = (trace LogError "Daemon is handling a request after death."
            (run [EConnClose] (initial posix)), ClosedPromise)).
Proof.
  split; [reflexivity|]. split; [reflexivity|].
  exact (closed_undisposed_daemon_rejects_at_once posix [EConnClose] eq_refl eq_refl).
Defined.

Lemma start_outcome_is_reported_witness :
  streams (step oneStreaming (EAnswer 0 (Fulfilled (Some failedWithStderr)))) !! 0%nat
  = Some strictStream /\
  exists st',
    streams (step (step oneStreaming (EAnswer 0 (Fulfilled (Some failedWithStderr))))
               (EStartSettled 0)) !! 0%nat = Some st' /\
    emitted (subject st')
    = [OnNext (mkOutput SrcStderr
                 (("Failed to run " +:+ "script.py" +:+
                   " as observable with args " +:+ "--flag") +:+ LF +:+ ""));
       OnError (DaemonError "boom")] /\
    isStopped (subject st') = true /\
    timerPending st' = true.
Proof.
  split; [reflexivity|].
  apply (proj1 (start_outcome_is_reported
                  (step oneStreaming (EAnswer 0 (Fulfilled (Some failedWithStderr))))
                  0 strictStream (Fulfilled (Some failedWithStderr))
                  eq_refl eq_refl eq_refl eq_refl) (DaemonError "boom")).
  right. exists failedWithStderr, "boom".
  split; [reflexivity|]. split; [reflexivity|]. split; [discriminate | reflexivity].
Defined.

Lemma stream_ends_after_start_and_timer_witness :
  promiseState (step oneMerging (EAnswer 0 (Fulfilled None))) (RaceOf 0)
  = Settled (Fulfilled None) /\
  exists st',
    streams (run (EStartSettled 0 :: [EOutput (mkOutput SrcStderr "warn")] ++ [ETimer 0])
               (step oneMerging (EAnswer 0 (Fulfilled None)))) !! 0%nat = Some st' /\
    isStopped (subject st') = true /\ subscribed st' = false /\
    forall later, exists st'',
      streams (run later
                 (run (EStartSettled 0 :: [EOutput (mkOutput SrcStderr "warn")]
                       ++ [ETimer 0])
                    (step oneMerging (EAnswer 0 (Fulfilled None))))) !! 0%nat
      = Some st'' /\
      subject st'' = subject st' /\ subscribed st'' = false.
Proof.
  split; [reflexivity|].
  exact (stream_ends_after_start_and_timer
           (step oneMerging (EAnswer 0 (Fulfilled None))) 0 mergingStream
           (Fulfilled None) [EOutput (mkOutput SrcStderr "warn")]
           eq_refl eq_refl eq_refl).
Defined.

Lemma relay_reaches_every_open_stream_witness :
  streams oneMerging !! 0%nat = Some mergingStream /\
  exists st',
    streams (step oneMerging (EOutput (mkOutput SrcStderr "warn"))) !! 0%nat
    = Some st' /\
    isStopped (subject st') = false /\
    emitted (subject st') = [OnNext (mkOutput SrcStdout "warn")].
Proof.
  split; [reflexivity|].
  exact (proj2 (relay_reaches_every_open_stream oneMerging
                  (mkOutput SrcStderr "warn") 0 mergingStream eq_refl)
           eq_refl eq_refl eq_refl).
Defined.

Lemma only_dispose_kills_witness :
  ~ In EDispose [EConnClose; EProcExit (Some 1%Z)] /\
  killCalls (run [EConnClose; EProcExit (Some 1%Z)] (initial posix)) = [].
Proof.
  assert (H : ~ In EDispose [EConnClose; EProcExit (Some 1%Z)]).
  { intros [H|[H|[]]]; discriminate. }
  split; [exact H|].
  exact (proj1 (proj2 (only_dispose_kills [EConnClose; EProcExit (Some 1%Z)]
                         (initial posix) H))).
Defined.
